(** * SaverX download orchestrator: a shallow embedding of
      [desktop_app.py] (Tkinter front end) and of the download path of
      [main.py] (Flet front end), with the properties of the job
      life cycle checked against it.

    Conventions of the embedding.
    - A Python [str] is the list of its code points ([pystr]).
    - [self.downloads] is a finite map from job identifiers to items;
      [self.event_q] and [self.log_q] are FIFO lists (put appends at the
      end, [get_nowait] removes the head).
    - The threads of the program are interleaved at the granularity of the
      actions of [Action]: what the user interface thread does
      (a submission, by the button, the Return key or the timer of the URL
      entry; a click on the stop button of a row; the 200 ms flush tick)
      and what a worker thread does (one call of its progress hook by
      yt-dlp, the return of the fetch, an exception out of the fetch, the
      [except] clause).
    - yt-dlp is external.  It shows up as the actions it can cause: any
      sequence of hook calls with any dictionaries, then a return with a
      file path or an exception with a message.  An exception raised by
      the hook leaves [extract_info] unchanged, as yt-dlp does when
      [ignoreerrors] is not set.  [get_downloads_folder], the exit of the
      [with] block and [refresh_gallery] touch only the file system and
      the widgets of the gallery; they are taken to return normally.
    - The dictionary of a notification holds [None], integers, floats
      or strings ([PyVal]) under the keys the hooks read, and a key can
      be missing.
    - [int(downloaded / total * 100)] is computed in IEEE 754 binary64,
      with the specification of the Standard Library ([SpecFloat]). *)

From Stdlib Require Import ZArith List Ascii String.
From Stdlib Require Import Floats.SpecFloat.
From stdpp Require Import base option list gmap.

Open Scope Z_scope.

(** ** Python strings *)

Module PyStr.

Definition pystr := list N.

(** An ASCII literal as a Python string. *)
Definition lit (s : string) : pystr :=
  map N_of_ascii (list_ascii_of_string s).

(** [prefix in s] at the head of [s]. *)
Fixpoint starts_with (p s : pystr) : bool :=
  match p, s with
  | [], _ => true
  | _ :: _, [] => false
  | a :: p', b :: s' => if N.eqb a b then starts_with p' s' else false
  end.

(** Python's [needle in hay] on strings. *)
Fixpoint contains (needle hay : pystr) : bool :=
  starts_with needle hay ||
  match hay with
  | [] => false
  | _ :: hay' => contains needle hay'
  end.

(** [str.isspace] on one code point: the code points CPython's
    [_PyUnicode_IsWhitespace] accepts. *)
Definition isspace (c : N) : bool :=
  ((9 <=? c) && (c <=? 13) || (28 <=? c) && (c <=? 32) ||
   (c =? 0x85) || (c =? 0xA0) || (c =? 0x1680) ||
   (0x2000 <=? c) && (c <=? 0x200A) ||
   (c =? 0x2028) || (c =? 0x2029) || (c =? 0x202F) ||
   (c =? 0x205F) || (c =? 0x3000))%N.

Fixpoint lstrip (s : pystr) : pystr :=
  match s with
  | [] => []
  | c :: s' => if isspace c then lstrip s' else s
  end.

(** [s.strip()]. *)
Definition strip (s : pystr) : pystr :=
  rev (lstrip (rev (lstrip s))).

(** Truthiness of a string: [if s]. *)
Definition truthy (s : pystr) : bool :=
  match s with [] => false | _ :: _ => true end.

(** [s.split('\n')[-1]]: what follows the last line feed. *)
Fixpoint last_line_aux (acc s : pystr) : pystr :=
  match s with
  | [] => rev acc
  | c :: s' => if N.eqb c 10 then last_line_aux [] s'
               else last_line_aux (c :: acc) s'
  end.

Definition last_line (s : pystr) : pystr := last_line_aux [] s.

End PyStr.

Import PyStr.

(** ** Python values *)

Module PyNum.

(** The values the hooks find under the keys they read: [None], an
    [int], a [float] or a [str]. *)
Inductive PyVal :=
| VNone
| VInt (z : Z)
| VFloat (x : spec_float)
| VStr (s : pystr).

#[global] Instance spec_float_eq_dec : EqDecision spec_float.
Proof. solve_decision. Defined.

#[global] Instance PyVal_eq_dec : EqDecision PyVal.
Proof. solve_decision. Defined.

(** [type(v).__name__]. *)
Definition type_name (v : PyVal) : pystr :=
  match v with
  | VNone => lit "NoneType"
  | VInt _ => lit "int"
  | VFloat _ => lit "float"
  | VStr _ => lit "str"
  end.

(** [if v]. *)
Definition truthy (v : PyVal) : bool :=
  match v with
  | VNone => false
  | VInt z => negb (z =? 0)
  | VFloat (S754_zero _) => false
  | VFloat _ => true
  | VStr s => PyStr.truthy s
  end.

(** [a or b]. *)
Definition or_ (a b : PyVal) : PyVal := if truthy a then a else b.

(** An integer as the numerator or the denominator of an exact
    quotient: the mantissa is the integer itself. *)
Definition exact (z : Z) : spec_float :=
  match z with
  | Z0 => S754_zero false
  | Zpos p => S754_finite false p 0
  | Zneg p => S754_finite true p 0
  end.

(** [float(z)]: the nearest binary64 number, or the message of the
    [OverflowError]. *)
Definition of_int (z : Z) : spec_float + pystr :=
  match binary_normalize 53 1024 z 0 false with
  | S754_infinity _ => inr (lit "int too large to convert to float")
  | x => inl x
  end.

Definition fdiv : spec_float -> spec_float -> spec_float := SFdiv 53 1024.
Definition fmul : spec_float -> spec_float -> spec_float := SFmul 53 1024.

(** [x / y] on two floats. *)
Definition float_div (x y : spec_float) : spec_float + pystr :=
  match y with
  | S754_zero _ => inr (lit "float division by zero")
  | _ => inl (fdiv x y)
  end.

(** [a / b]: the quotient, or the message of the exception.  Two
    integers give the quotient rounded once; an integer beside a float is
    converted first; [None] and strings raise [TypeError]. *)
Definition truediv (a b : PyVal) : spec_float + pystr :=
  match a, b with
  | VInt x, VInt y =>
      if y =? 0 then inr (lit "division by zero")
      else match fdiv (exact x) (exact y) with
           | S754_infinity _ =>
               inr (lit "integer division result too large for a float")
           | q => inl q
           end
  | VInt x, VFloat y =>
      match of_int x with
      | inl x' => float_div x' y
      | inr msg => inr msg
      end
  | VFloat x, VInt y =>
      match of_int y with
      | inl y' => float_div x y'
      | inr msg => inr msg
      end
  | VFloat x, VFloat y => float_div x y
  | _, _ =>
      inr (lit "unsupported operand type(s) for /: '" ++ type_name a
           ++ lit "' and '" ++ type_name b ++ lit "'")
  end.

(** [100.0]. *)
Definition hundred : spec_float :=
  Eval cbv in binary_normalize 53 1024 100 0 false.

(** [int(x)] on a float: truncation toward zero, or the message of the
    [OverflowError] or [ValueError]. *)
Definition to_int (x : spec_float) : Z + pystr :=
  match x with
  | S754_zero _ => inl 0
  | S754_finite s m e =>
      let mag := if 0 <=? e then Z.pos m * 2 ^ e
                 else Z.pos m / 2 ^ (- e) in
      inl (if s then - mag else mag)
  | S754_infinity _ => inr (lit "cannot convert float infinity to integer")
  | S754_nan => inr (lit "cannot convert float NaN to integer")
  end.

End PyNum.

Import PyNum(PyVal(..)).

(** ** The Tkinter application ([desktop_app.py]) *)

Module Desktop.

(** *** String constants of the source *)

Definition s_pending : pystr := Eval cbv in lit "pending".
Definition s_downloading : pystr := Eval cbv in lit "downloading".
Definition s_finished : pystr := Eval cbv in lit "finished".
Definition s_finalizing : pystr := Eval cbv in lit "finalizing".
Definition s_done : pystr := Eval cbv in lit "done".
Definition s_user_cancelled : pystr := Eval cbv in lit "USER_CANCELLED".

(** The placeholder title of a new item. *)
Definition s_preparing : pystr :=
  [0x642; 0x64a; 0x62f; 0x20; 0x627; 0x644; 0x62a; 0x62d; 0x636; 0x64a;
   0x631; 0x2e; 0x2e; 0x2e]%N.

(** The status text of a cancelled job. *)
Definition s_cancelled : pystr := [0x623; 0x64f; 0x644; 0x63a; 0x64a]%N.

(** The word the status text of a failed job starts with, and the
    prefix of that text: the word, a colon and a space. *)
Definition s_error_word : pystr := [0x62e; 0x637; 0x623]%N.
Definition s_error_prefix : pystr := s_error_word ++ [0x3a; 0x20]%N.

(** The third word [_set_download_status] looks for. *)
Definition s_fail_word : pystr := [0x641; 0x634; 0x644]%N.

(** *** Data *)

(** The tuples put on [event_q]. *)
Inductive Event :=
| EvAdd (dlid : Z) (title : pystr)
| EvProgress (dlid : Z) (percent : Z) (speed eta : PyVal)
| EvStatus (dlid : Z) (text : pystr)
| EvDone (dlid : Z) (filepath : pystr).

Definition event_id (ev : Event) : Z :=
  match ev with
  | EvAdd i _ | EvProgress i _ _ _ | EvStatus i _ | EvDone i _ => i
  end.

(** The lines put on [log_q]; the text around the parameters is fixed
    and the time stamp of [_log] is left out. *)
Inductive LogMsg :=
| LogPreparing
| LogStoppedByUser (dlid : Z)
| LogHook (percent_str filename : PyVal)
| LogCompleted (filepath : pystr)
| LogCancelled (dlid : Z)
| LogFailed (msg : pystr).

(** What the status label of a row shows. *)
Inductive StatusLabel :=
| LblWaiting
| LblProgress (percent : Z) (speed : PyVal) (eta : option PyVal)
| LblText (text : pystr)
| LblStopped
| LblDone.

(** The widgets of a row, as far as the handlers configure them. *)
Record Widgets := mkWidgets {
  w_label : pystr;
  w_pb : Z;
  w_status : StatusLabel;
  w_open_btn : bool;
  w_stop_btn : bool }.

(** [DownloadItem].  [it_cancel_event] is [None] for no event object
    and [Some b] for an event whose flag is [b]; [it_widgets] is [None]
    for the empty dictionary; [it_thread] is the index of the thread;
    [it_speed] and [it_eta] hold what the progress events bring. *)
Record DownloadItem := mkItem {
  it_id : Z;
  it_title : pystr;
  it_url : pystr;
  it_status : pystr;
  it_progress : Z;
  it_speed : PyVal;
  it_eta : PyVal;
  it_filepath : pystr;
  it_cancel_event : option bool;
  it_thread : option nat;
  it_widgets : option Widgets }.

(** The dictionary yt-dlp passes to a progress hook, at the keys the
    hooks read; [None] is a missing key, [Some VNone] a key that holds
    [None]. *)
Record HookDict := mkHookDict {
  d_status : option PyVal;
  d_total_bytes : option PyVal;
  d_total_bytes_estimate : option PyVal;
  d_downloaded_bytes : option PyVal;
  d_speed_str : option PyVal;
  d_eta : option PyVal;
  d_percent_str : option PyVal;
  d_filename : option PyVal }.

(** [d.get(key)] and [d.get(key, default)]. *)
Definition get (v : option PyVal) : PyVal := default VNone v.
Definition get_or (v : option PyVal) (dflt : PyVal) : PyVal := default dflt v.

(** Where a worker thread stands in [_download_worker]. *)
Inductive Pc :=
| Running                 (* inside [extract_info] / [prepare_filename] *)
| Raised (msg : pystr)    (* an exception with [str(e) = msg] is in flight *)
| Exited.                 (* the [try] statement is over *)

Record Worker := mkWorker {
  wk_dlid : Z;
  wk_url : pystr;
  wk_pc : Pc }.

(** The application object.  [threads] are the threads started so far,
    [dialogs] counts the message boxes shown, [log_text] is the log
    widget and [handled] the events [_flush_logs] has taken off the
    queue, oldest first. *)
Record App := mkApp {
  downloads : gmap Z DownloadItem;
  _download_counter : Z;
  event_q : list Event;
  log_q : list LogMsg;
  log_text : list LogMsg;
  dialogs : nat;
  threads : list Worker;
  handled : list Event }.

Definition init : App :=
  {| downloads := ∅; _download_counter := 1; event_q := []; log_q := [];
     log_text := []; dialogs := 0; threads := []; handled := [] |}.

(** *** Field updates *)

Definition with_downloads (f : gmap Z DownloadItem -> gmap Z DownloadItem)
    (s : App) : App :=
  mkApp (f (downloads s)) (_download_counter s) (event_q s) (log_q s)
        (log_text s) (dialogs s) (threads s) (handled s).

Definition put_event (ev : Event) (s : App) : App :=
  mkApp (downloads s) (_download_counter s) (event_q s ++ [ev]) (log_q s)
        (log_text s) (dialogs s) (threads s) (handled s).

Definition put_log (m : LogMsg) (s : App) : App :=
  mkApp (downloads s) (_download_counter s) (event_q s) (log_q s ++ [m])
        (log_text s) (dialogs s) (threads s) (handled s).

Definition with_threads (f : list Worker -> list Worker) (s : App) : App :=
  mkApp (downloads s) (_download_counter s) (event_q s) (log_q s)
        (log_text s) (dialogs s) (f (threads s)) (handled s).

Definition set_pc (t : nat) (pc : Pc) (s : App) : App :=
  with_threads
    (fun ts => match ts !! t with
               | Some w => <[t := mkWorker (wk_dlid w) (wk_url w) pc]> ts
               | None => ts
               end) s.

(** *** [start_download] *)

Definition start_download (url_var : pystr) (s : App) : App :=
  let url := strip url_var in
  if negb (PyStr.truthy url) then
    mkApp (downloads s) (_download_counter s) (event_q s) (log_q s)
          (log_text s) (S (dialogs s)) (threads s) (handled s)
  else
    let dlid := _download_counter s in
    let item := mkItem dlid s_preparing url s_pending 0 (VStr []) VNone []
                       (Some false) (Some (length (threads s))) None in
    mkApp (<[dlid := item]> (downloads s)) (dlid + 1)
          (event_q s ++ [EvAdd dlid (it_title item)])
          (log_q s ++ [LogPreparing])
          (log_text s) (dialogs s)
          (threads s ++ [mkWorker dlid url Running]) (handled s).

(** *** [_stop_download] *)

Definition _stop_download (dlid : Z) (s : App) : App :=
  match downloads s !! dlid with
  | None => s
  | Some item =>
      let ev := match it_cancel_event item with
                | Some _ => Some true     (* [item.cancel_event.set()] *)
                | None => Some true       (* a new event, set *)
                end in
      let ws := match it_widgets item with
                | Some w => Some (mkWidgets (w_label w) (w_pb w) LblStopped
                                            (w_open_btn w) false)
                | None => None            (* [KeyError], swallowed *)
                end in
      let item' := mkItem (it_id item) (it_title item) (it_url item)
                          (it_status item) (it_progress item)
                          (it_speed item) (it_eta item) (it_filepath item)
                          ev (it_thread item) ws in
      put_log (LogStoppedByUser dlid)
              (with_downloads (insert dlid item') s)
  end.

(** A click on the stop button of the row of [dlid], whose command is
    [_stop_download(dlid)]: nothing happens when the row does not exist
    yet or the button is disabled. *)
Definition stop_btn_click (dlid : Z) (s : App) : App :=
  match downloads s !! dlid with
  | Some item =>
      match it_widgets item with
      | Some w => if w_stop_btn w then _stop_download dlid s else s
      | None => s
      end
  | None => s
  end.

(** *** The handlers of [_flush_logs]

    Each returns the new state and whether it raised. *)

Definition _add_download_row (dlid : Z) (title : pystr) (s : App)
    : App * bool :=
  match downloads s !! dlid with
  | None => (s, true)                      (* [KeyError] *)
  | Some item =>
      let ws := mkWidgets title 0 LblWaiting false true in
      let item' := mkItem (it_id item) title (it_url item) s_downloading 0
                          (it_speed item) (it_eta item) []
                          (it_cancel_event item) (it_thread item)
                          (Some ws) in
      (with_downloads (insert dlid item') s, false)
  end.

Definition _update_download_row (dlid percent : Z) (speed eta : PyVal)
    (s : App) : App * bool :=
  match downloads s !! dlid with
  | None => (s, false)
  | Some item =>
      let upd ws := mkItem (it_id item) (it_title item) (it_url item)
                           (it_status item) percent speed eta
                           (it_filepath item) (it_cancel_event item)
                           (it_thread item) ws in
      match it_widgets item with
      | None => (with_downloads (insert dlid (upd None)) s, true)
      | Some w =>
          let lbl := if PyNum.truthy eta
                     then LblProgress percent speed (Some eta)
                     else LblProgress percent speed None in
          let w' := mkWidgets (w_label w) percent lbl false (w_stop_btn w) in
          (with_downloads (insert dlid (upd (Some w'))) s, false)
      end
  end.

Definition _set_download_status (dlid : Z) (text : pystr) (s : App)
    : App * bool :=
  match downloads s !! dlid with
  | None => (s, false)
  | Some item =>
      let final := contains s_cancelled text || contains s_error_word text
                   || contains s_fail_word text in
      let ws := match it_widgets item with
                | Some w =>
                    Some (mkWidgets (w_label w) (w_pb w) (LblText text)
                            (w_open_btn w)
                            (if final then false else w_stop_btn w))
                | None => None
                end in
      let item' := mkItem (it_id item) (it_title item) (it_url item)
                          text (it_progress item) (it_speed item)
                          (it_eta item) (it_filepath item)
                          (it_cancel_event item) (it_thread item) ws in
      (with_downloads (insert dlid item') s, false)
  end.

Definition _set_download_done (dlid : Z) (filepath : pystr) (s : App)
    : App * bool :=
  match downloads s !! dlid with
  | None => (s, false)
  | Some item =>
      let ws := match it_widgets item with
                | Some w => Some (mkWidgets (w_label w) 100 LblDone true false)
                | None => None
                end in
      let item' := mkItem (it_id item) (it_title item) (it_url item)
                          s_done (it_progress item) (it_speed item)
                          (it_eta item) filepath
                          (it_cancel_event item) (it_thread item) ws in
      (with_downloads (insert dlid item') s, false)
  end.

Definition dispatch (ev : Event) (s : App) : App * bool :=
  match ev with
  | EvAdd dlid title => _add_download_row dlid title s
  | EvProgress dlid percent speed eta =>
      _update_download_row dlid percent speed eta s
  | EvStatus dlid text => _set_download_status dlid text s
  | EvDone dlid filepath => _set_download_done dlid filepath s
  end.

(** *** [_open_file]

    [exists_] is [os.path.exists].  The result is the state and the path
    handed to [webbrowser.open], if one is; otherwise the message box is
    shown. *)
Definition _open_file (exists_ : pystr -> bool) (dlid : Z) (s : App)
    : App * option pystr :=
  match downloads s !! dlid with
  | Some item =>
      if PyStr.truthy (it_filepath item) && exists_ (it_filepath item)
      then (s, Some (it_filepath item))
      else (mkApp (downloads s) (_download_counter s) (event_q s) (log_q s)
                  (log_text s) (S (dialogs s)) (threads s) (handled s), None)
  | None =>
      (mkApp (downloads s) (_download_counter s) (event_q s) (log_q s)
             (log_text s) (S (dialogs s)) (threads s) (handled s), None)
  end.

(** *** [_flush_logs] *)

Definition take_event (ev : Event) (rest : list Event) (s : App) : App :=
  mkApp (downloads s) (_download_counter s) rest (log_q s)
        (log_text s) (dialogs s) (threads s) (handled s ++ [ev]).

(** The second loop: one [get_nowait] and one handler per round, until
    the queue is empty or a handler raises; the flag tells which. *)
Fixpoint drain_events (q : list Event) (s : App) : App * bool :=
  match q with
  | [] => (s, false)
  | ev :: q' =>
      let '(s', raised) := dispatch ev (take_event ev q' s) in
      if raised then (s', true) else drain_events q' s'
  end.

(** [_flush_logs]: the new state and whether an exception left it (the
    timer is then not armed again). *)
Definition _flush_logs (s : App) : App * bool :=
  let s1 := mkApp (downloads s) (_download_counter s) (event_q s) []
                  (log_text s ++ log_q s) (dialogs s) (threads s)
                  (handled s) in
  drain_events (event_q s1) s1.

(** *** [_download_worker] *)

(** [int(downloaded / total * 100)]: the quotient rounded to binary64,
    times [100.0], truncated.  The right side is the message of the
    exception Python raises instead. *)
Definition percent_of (downloaded total : PyVal) : Z + pystr :=
  match PyNum.truediv downloaded total with
  | inl q => PyNum.to_int (PyNum.fmul q PyNum.hundred)
  | inr msg => inr msg
  end.

(** [itm and itm.cancel_event and itm.cancel_event.is_set()]. *)
Definition cancel_is_set (dlid : Z) (s : App) : bool :=
  match downloads s !! dlid with
  | Some itm =>
      match it_cancel_event itm with
      | Some flag => flag
      | None => false
      end
  | None => false
  end.

(** [d.get('total_bytes') or d.get('total_bytes_estimate')]. *)
Definition hook_total (d : HookDict) : PyVal :=
  PyNum.or_ (get (d_total_bytes d)) (get (d_total_bytes_estimate d)).

(** The percentage a "downloading" notification is published with, or
    the message of the exception the computation raises. *)
Definition hook_percent (d : HookDict) : Z + pystr :=
  let total := hook_total d in
  let downloaded := get_or (d_downloaded_bytes d) (VInt 0) in
  if PyNum.truthy total then percent_of downloaded total else inl 0.

(** [speed or ''] and [eta], as they are put into the event. *)
Definition hook_speed (d : HookDict) : PyVal :=
  PyNum.or_ (get_or (d_speed_str d) (VStr [])) (VStr []).

Definition hook_eta (d : HookDict) : PyVal := get (d_eta d).

(** [progress_hook(d)] of the worker of job [dlid]: the new state and
    the message of the exception it raises, if it raises. *)
Definition progress_hook (dlid : Z) (d : HookDict) (s : App)
    : App * option pystr :=
  let status := get (d_status d) in
  if decide (status = VStr s_downloading) then
    match hook_percent d with
    | inr msg => (s, Some msg)
    | inl perc =>
        if cancel_is_set dlid s then (s, Some s_user_cancelled)
        else
          (put_log (LogHook (get_or (d_percent_str d) (VStr (lit "?")))
                            (get_or (d_filename d) (VStr [])))
                   (put_event (EvProgress dlid perc (hook_speed d)
                                          (hook_eta d)) s),
           None)
    end
  else if decide (status = VStr s_finished) then
    (put_event (EvStatus dlid s_finalizing) s, None)
  else (s, None).

(** The body of the [try]: [extract_info] and [prepare_filename] have
    returned [filepath]. *)
Definition worker_success (dlid : Z) (filepath : pystr) (s : App) : App :=
  put_log (LogCompleted filepath) (put_event (EvDone dlid filepath) s).

(** The [except] clause, for an exception with [str(e) = msg]. *)
Definition worker_except (dlid : Z) (msg : pystr) (s : App) : App :=
  if contains s_user_cancelled msg || cancel_is_set dlid s then
    put_log (LogCancelled dlid) (put_event (EvStatus dlid s_cancelled) s)
  else
    put_log (LogFailed msg)
            (put_event (EvStatus dlid (s_error_prefix ++ msg)) s).

(** *** Interleavings *)

Inductive Action :=
| Submit (url_var : pystr)       (* the button or the Return key *)
| Stop (dlid : Z)                (* a click on the stop button of a row *)
| Flush                          (* the timer tick of [_flush_logs] *)
| Hook (t : nat) (d : HookDict)  (* yt-dlp calls the hook of thread [t] *)
| FetchReturns (t : nat) (filepath : pystr)
| FetchRaises (t : nat) (msg : pystr)
| Handle (t : nat).              (* the [except] clause of thread [t] *)

(** One action; [None] when the thread is not at the point the action
    needs. *)
Definition step (a : Action) (s : App) : option App :=
  match a with
  | Submit url_var => Some (start_download url_var s)
  | Stop dlid => Some (stop_btn_click dlid s)
  | Flush => Some (_flush_logs s).1
  | Hook t d =>
      match threads s !! t with
      | Some (mkWorker dlid _ Running) =>
          match progress_hook dlid d s with
          | (s', None) => Some s'
          | (s', Some msg) => Some (set_pc t (Raised msg) s')
          end
      | _ => None
      end
  | FetchReturns t filepath =>
      match threads s !! t with
      | Some (mkWorker dlid _ Running) =>
          Some (set_pc t Exited (worker_success dlid filepath s))
      | _ => None
      end
  | FetchRaises t msg =>
      match threads s !! t with
      | Some (mkWorker dlid _ Running) => Some (set_pc t (Raised msg) s)
      | _ => None
      end
  | Handle t =>
      match threads s !! t with
      | Some (mkWorker dlid _ (Raised msg)) =>
          Some (set_pc t Exited (worker_except dlid msg s))
      | _ => None
      end
  end.

Fixpoint run (tr : list Action) (s : App) : option App :=
  match tr with
  | [] => Some s
  | a :: tr' =>
      match step a s with
      | Some s' => run tr' s'
      | None => None
      end
  end.

(** *** Observations *)

(** Every event put on the queue so far, in the order of the puts:
    what was taken off, then what still waits. *)
Definition history (s : App) : list Event := handled s ++ event_q s.

(** A terminal event: [done], the cancelled status or a failed status. *)
Definition is_terminal (ev : Event) : bool :=
  match ev with
  | EvDone _ _ => true
  | EvStatus _ text =>
      bool_decide (text = s_cancelled) || starts_with s_error_prefix text
  | _ => false
  end.

Definition events_of (dlid : Z) (evs : list Event) : list Event :=
  filter (fun ev => event_id ev = dlid) evs.

Definition terminal_count (dlid : Z) (evs : list Event) : nat :=
  length (filter (fun ev => is_terminal ev = true) (events_of dlid evs)).


End Desktop.

(** ** Starting from a paste ([desktop_app.py], [_build_ui]) *)

Module Paste.

Import Desktop.











End Paste.

(** ** The download path of the Flet application ([main.py]) *)

Module Flet.

Definition YOUTUBE_ALLOWED : bool := false.

Definition is_youtube_url (url : pystr) : bool :=
  contains (lit "youtube.com") url || contains (lit "youtu.be") url.

(** An exception out of yt-dlp, with [str(e)]: a [DownloadError] or
    another one. *)
Inductive Raise :=
| DownloadError (msg : pystr)
| OtherError (msg : pystr).

(** What the three yt-dlp calls of [download_video_yt_dlp] amount to
    for one URL.  Either [extract_info] or [prepare_filename] raises; or
    they give the file name template, and [download] has the
    notifications listed for the progress hook, in this order, and then
    returns or raises.  A hook that raises ends [download] with its
    exception, as said above. *)
Inductive Fetch :=
| InfoRaises (e : Raise)
| Downloads (final_path_template : pystr)
            (notifications : list Desktop.HookDict)
            (result : option Raise).

(** The texts passed to [status_cb] by [download_video_yt_dlp]; the
    fixed wording is left out. *)
Inductive Status :=
| StYoutubeRefused
| StPreparing
| StCompleted
| StFailed (error_msg : pystr)
| StUnexpected (msg : pystr).

Definition s_error : pystr := Eval cbv in lit "error".

(** [str(e)] of the [KeyError] for a missing key, and of the
    [AttributeError] of [ft.app.page]: [ft.app] is the function that
    starts a Flet application, and a function has no attribute
    [page]. *)
Definition key_error (key : string) : pystr :=
  lit "'" ++ lit key ++ lit "'".

Definition s_no_page : pystr :=
  Eval cbv in lit "'function' object has no attribute 'page'".

(** [_yt_dlp_hook(d, progress_cb, status_cb)]: the message of the
    exception it raises, or [None] when it returns.  Every call of a
    callback sits behind [ft.app.page], so no callback is reached. *)
Definition _yt_dlp_hook (d : Desktop.HookDict) : option pystr :=
  match Desktop.d_status d with
  | None => Some (key_error "status")
  | Some status =>
      if decide (status = VStr Desktop.s_downloading) then
        if PyNum.truthy (Desktop.get (Desktop.d_total_bytes d)) then
          match Desktop.d_downloaded_bytes d with
          | None => Some (key_error "downloaded_bytes")
          | Some downloaded =>
              match PyNum.truediv downloaded
                      (Desktop.get (Desktop.d_total_bytes d)) with
              | inr msg => Some msg
              | inl percent => Some s_no_page
              end
          end
        else Some s_no_page
      else if decide (status = VStr Desktop.s_finished) then Some s_no_page
      else if decide (status = VStr s_error) then Some s_no_page
      else None
  end.

(** The exception of the first notification whose hook raises. *)
Fixpoint first_raise (notifications : list Desktop.HookDict)
    : option pystr :=
  match notifications with
  | [] => None
  | d :: rest =>
      match _yt_dlp_hook d with
      | Some msg => Some msg
      | None => first_raise rest
      end
  end.

(** The two [except] clauses. *)
Definition handle (e : Raise) : list Status * option pystr :=
  match e with
  | DownloadError msg =>
      ([StPreparing; StFailed (strip (last_line msg))], None)
  | OtherError msg => ([StPreparing; StUnexpected msg], None)
  end.

Section WithFetcher.

(** yt-dlp, as a function of the URL it is given. *)
Variable fetch : pystr -> Fetch.

(** [download_video_yt_dlp]: the calls of [status_cb], oldest first,
    and the value returned. *)
Definition download_video_yt_dlp (video_url : pystr)
    : list Status * option pystr :=
  if negb YOUTUBE_ALLOWED && is_youtube_url video_url then
    ([StYoutubeRefused], None)
  else
    match fetch video_url with
    | InfoRaises e => handle e
    | Downloads final_path_template notifications result =>
        match first_raise notifications with
        | Some msg => handle (OtherError msg)
        | None =>
            match result with
            | None => ([StPreparing; StCompleted], Some final_path_template)
            | Some e => handle e
            end
        end
    end.

End WithFetcher.

(** [DownloadView], as far as [start_download] reads and writes it.
    [started] holds the arguments of the threads started. *)
Record DownloadView := mkView {
  url_input_value : pystr;
  url_input_error_text : bool;
  inline_info_value : pystr;
  download_button_disabled : bool;
  platform_name : option pystr;
  page_updates : nat;
  started : list (pystr * option pystr) }.

(** [DownloadView.start_download]. *)
Definition start_download (v : DownloadView) : DownloadView :=
  let url := strip (url_input_value v) in
  if negb (PyStr.truthy url) then
    mkView (url_input_value v) true [] (download_button_disabled v)
           (platform_name v) (S (page_updates v)) (started v)
  else
    mkView (url_input_value v) (url_input_error_text v)
           (inline_info_value v) true (platform_name v)
           (S (page_updates v)) (started v ++ [(url, platform_name v)]).

End Flet.

(** ** Notions the properties are stated with *)

Module Props.

Import Desktop.

#[global] Instance Pc_eq_dec : EqDecision Pc.
Proof. solve_decision. Defined.

#[global] Instance Event_eq_dec : EqDecision Event.
Proof. solve_decision. Defined.

(** A state the application can be in: the result of some interleaving
    from the initial state. *)
Definition reachable (s : App) : Prop :=
  exists tr, run tr init = Some s.

(** The number of threads of job [dlid] that have left [_download_worker]'s
    [try] statement. *)
Definition exited_count (dlid : Z) (ts : list Worker) : nat :=
  length (filter (fun w => wk_dlid w = dlid /\ wk_pc w = Exited) ts).

(** The identifiers handed out, in the order of the submissions. *)
Definition thread_ids (s : App) : list Z := wk_dlid <$> threads s.

(** Strictly increasing lists of integers. *)
Fixpoint increasing (l : list Z) : Prop :=
  match l with
  | [] => True
  | x :: l' => Forall (fun y => x < y) l' /\ increasing l'
  end.

(** Non-decreasing lists of integers. *)
Fixpoint nondecreasing (l : list Z) : Prop :=
  match l with
  | [] => True
  | x :: l' => Forall (fun y => x <= y) l' /\ nondecreasing l'
  end.

(** The percentages of the progress events of job [dlid]. *)
Definition progress_percents (dlid : Z) (evs : list Event) : list Z :=
  omap (fun ev => match ev with
                  | EvProgress i p _ _ => if decide (i = dlid) then Some p else None
                  | _ => None
                  end) evs.

End Props.


(** ** Invariants of the interleavings *)

Import Desktop Props.

(** Every thread that has left the [try] statement has published one
    terminal event, and no other terminal event exists. *)
Definition counts_agree (s : App) : Prop :=
  forall dlid, terminal_count dlid (history s) = exited_count dlid (threads s).


(** What a step does to the counter, the keys of [downloads], the
    identifiers of the threads and the events published: a submission
    that is accepted takes the counter as identifier; every other step
    keeps all of them, or publishes one event of a running thread. *)
Definition quiet_step (s s' : App) : Prop :=
  _download_counter s' = _download_counter s /\
  dom (downloads s') = dom (downloads s) /\
  thread_ids s' = thread_ids s /\
  (history s' = history s \/
   exists ev, history s' = history s ++ [ev] /\
              event_id ev ∈ thread_ids s).

Definition submit_step (s s' : App) : Prop :=
  let dlid := _download_counter s in
  _download_counter s' = dlid + 1 /\
  dom (downloads s') = {[dlid]} ∪ dom (downloads s) /\
  thread_ids s' = thread_ids s ++ [dlid] /\
  history s' = history s ++ [EvAdd dlid s_preparing].


(** Identifiers in use stay below the counter; the threads were given
    increasing identifiers, each with an item; every event published
    belongs to the job of a thread. *)
Record ids_ok (s : App) : Prop := mk_ids_ok {
  ids_downloads :
    forall k, k ∈ dom (downloads s) -> k < _download_counter s;
  ids_threads :
    Forall (fun i => i < _download_counter s /\ i ∈ dom (downloads s))
           (thread_ids s);
  ids_increasing : increasing (thread_ids s);
  ids_history : Forall (fun ev => event_id ev ∈ thread_ids s) (history s) }.


(** The handlers on [downloads] alone, and the second loop of
    [_flush_logs] with them. *)
Definition dispatch_dl (ev : Event) (m : gmap Z DownloadItem)
    : gmap Z DownloadItem * bool :=
  let r := dispatch ev (mkApp m 0 [] [] [] 0 [] []) in (downloads r.1, r.2).

Fixpoint drain_dl (q : list Event) (m : gmap Z DownloadItem)
    : gmap Z DownloadItem * bool :=
  match q with
  | [] => (m, false)
  | ev :: q' =>
      let '(m', raised) := dispatch_dl ev m in
      if raised then (m', true) else drain_dl q' m'
  end.

(** An item without the widgets of a row. *)
Definition rowless (m : gmap Z DownloadItem) (k : Z) : Prop :=
  exists item, m !! k = Some item /\ it_widgets item = None.

(** In the queue [q] the row of job [k] is added before any progress
    event of [k]. *)
Fixpoint add_first (k : Z) (q : list Event) : Prop :=
  match q with
  | [] => False
  | EvAdd j _ :: q' => j = k \/ add_first k q'
  | EvProgress j _ _ _ :: q' => j <> k /\ add_first k q'
  | _ :: q' => add_first k q'
  end.

(** The queue can be handled: rows still to make are announced before
    their progress events, and every announced row has an item. *)
Definition queue_ok (m : gmap Z DownloadItem) (q : list Event) : Prop :=
  (forall k, rowless m k -> add_first k q) /\
  Forall (fun ev => event_id ev ∈ dom m) q.

Definition rows_ok (s : App) : Prop := queue_ok (downloads s) (event_q s).

(** ** Concrete runs *)

Module Scenario.

Definition url1 : pystr := Eval cbv in lit "https://example.com/v1".
Definition path1 : pystr := Eval cbv in lit "/tmp/x/v1.mp4".
Definition speed1 : PyVal := Eval cbv in VStr (lit "1.0MiB/s").

(** A "downloading" notification. *)
Definition tick (downloaded : Z) (total_bytes estimate : option Z)
    : HookDict :=
  mkHookDict (Some (VStr s_downloading)) (VInt <$> total_bytes)
             (VInt <$> estimate) (Some (VInt downloaded))
             (Some speed1) (Some (VInt 2)) None (Some (VStr path1)).

(** The "finished" notification. *)
Definition finished : HookDict :=
  mkHookDict (Some (VStr s_finished)) (Some (VInt 1000)) None
             (Some (VInt 1000)) None None None (Some (VStr path1)).

(** The state an interleaving leads to from the initial state. *)
Definition state_of (tr : list Action) : App := default init (run tr init).

(** One job, two notifications of a transfer of 1000 bytes, the end of
    the transfer, and only then a stop request. *)
Definition late_cancel : list Action :=
  [Submit url1; Flush; Hook 0 (tick 400 (Some 1000) None);
   Hook 0 (tick 1000 (Some 1000) None); Hook 0 finished; Stop 1].


(** A job that has run to completion and whose row shows it. *)
Definition done_job : list Action :=
  [Submit url1; Flush; Hook 0 (tick 400 (Some 1000) None);
   FetchReturns 0 path1; Flush].


(** A play list: the first file is finished, the second one starts. *)
Definition two_files : list Action :=
  [Submit url1; Flush; Hook 0 finished;
   Hook 0 (tick 400 (Some 1000) None); Flush].

(** The run of scenario A of the specification. *)
Definition scenario_a : list Action :=
  [Submit url1; Hook 0 (tick 400 (Some 1000) None);
   Hook 0 (tick 1000 (Some 1000) None); Hook 0 finished;
   FetchReturns 0 path1; Flush].

(** A stop request, then a network error of the fetcher. *)
Definition timeout_msg : pystr := Eval cbv in lit "Connection timed out".

Definition error_after_stop : list Action :=
  [Hook 0 (tick 400 (Some 1000) None); FetchRaises 0 timeout_msg].

(** A stop request while the transfer runs. *)
Definition stopped_job : list Action :=
  [Submit url1; Flush; Hook 0 (tick 400 (Some 1000) None); Stop 1].

(** The fetcher fails and nobody asked for a stop. *)
Definition failing_job : list Action :=
  [Submit url1; Flush; Hook 0 (tick 400 (Some 1000) None);
   FetchRaises 0 timeout_msg].

(** Two jobs; the second one has sent a notification. *)
Definition two_jobs : list Action :=
  [Submit url1; Submit url1; Flush; Hook 1 (tick 400 (Some 1000) None)].

End Scenario.

(** ** Forgetting the URLs *)




Module FletScenario.



End FletScenario.

(** ** The events of one job *)

(** The event a notification is published as, when the hook gets as far
    as publishing. *)
Definition hook_event (dlid : Z) (d : HookDict) : option Event :=
  if decide (get (d_status d) = VStr s_downloading) then
    match hook_percent d with
    | inl perc => Some (EvProgress dlid perc (hook_speed d) (hook_eta d))
    | inr _ => None
    end
  else if decide (get (d_status d) = VStr s_finished) then
    Some (EvStatus dlid s_finalizing)
  else None.

(** The notifications yt-dlp delivered to thread [t] in an interleaving. *)
Fixpoint hooks_of (t : nat) (tr : list Action) : list HookDict :=
  match tr with
  | [] => []
  | Hook t' d :: tr' =>
      if decide (t' = t) then d :: hooks_of t tr' else hooks_of t tr'
  | _ :: tr' => hooks_of t tr'
  end.

Definition hook_events (dlid : Z) (t : nat) (tr : list Action) : list Event :=
  omap (hook_event dlid) (hooks_of t tr).


(** What thread [t], with the worker [w], has published at the end of
    the interleaving [tr]: the announcement of the row, the events of the
    notifications up to the one that raised (of all of them while the
    fetch is running), and one terminal event once the thread has left
    the [try] statement. *)
Definition job_view (tr : list Action) (s : App) (t : nat) (w : Worker)
    : Prop :=
  exists mid term,
    events_of (wk_dlid w) (history s)
    = EvAdd (wk_dlid w) s_preparing :: mid ++ term /\
    mid `prefix_of` hook_events (wk_dlid w) t tr /\
    (wk_pc w = Running -> mid = hook_events (wk_dlid w) t tr) /\
    (wk_pc w = Exited -> exists ev, term = [ev] /\ is_terminal ev = true) /\
    (wk_pc w <> Exited -> term = []).

Definition jobs_ok (tr : list Action) (s : App) : Prop :=
  (forall t, threads s !! t = None -> hooks_of t tr = []) /\
  (forall t w, threads s !! t = Some w -> job_view tr s t w).

(** The kinds of event of the specification. *)
Inductive Kind :=
| Added | Progress | StatusChanged | Completed | Failed | Cancelled.

Definition kind_of (ev : Event) : Kind :=
  match ev with
  | EvAdd _ _ => Added
  | EvProgress _ _ _ _ => Progress
  | EvStatus _ text =>
      if bool_decide (text = s_cancelled) then Cancelled
      else if starts_with s_error_prefix text then Failed
      else StatusChanged
  | EvDone _ _ => Completed
  end.

Definition terminal_kind (k : Kind) : bool :=
  match k with
  | Completed | Failed | Cancelled => true
  | _ => false
  end.

(** The words of [Added, Progress*, StatusChanged?, (Completed | Failed |
    Cancelled)], and their subsequences. *)
Definition in_pattern (ks : list Kind) : Prop :=
  exists (n : nat) (sc : bool) (term : Kind),
    terminal_kind term = true /\
    ks = Added :: replicate n Progress
               ++ (if sc then [StatusChanged] else []) ++ [term].

Definition subsequence_of_pattern (ks : list Kind) : Prop :=
  exists full, in_pattern full /\ ks `sublist_of` full.

Definition job_kinds (dlid : Z) (evs : list Event) : list Kind :=
  kind_of <$> events_of dlid evs.

(** The position of a kind in the pattern. *)
Definition phase (k : Kind) : Z :=
  match k with
  | Added => 0
  | Progress => 1
  | StatusChanged => 2
  | Completed | Failed | Cancelled => 3
  end.

(** After a "finished" notification the fetcher sends no "downloading"
    and no second "finished" notification. *)
Fixpoint finished_is_last (ds : list HookDict) : Prop :=
  match ds with
  | [] => True
  | d :: ds' =>
      (get (d_status d) = VStr s_finished ->
       Forall (fun d' => get (d_status d') <> VStr s_downloading /\
                         get (d_status d') <> VStr s_finished) ds') /\
      finished_is_last ds'
  end.

(** ** The registry and the threads *)

(** The registry and the list of threads describe the same jobs: the
    counter is one more than the number of threads; thread [t] runs job
    [t + 1], and the item of that job holds the identifier, the URL the
    thread was given and the thread; and every key of the registry is
    the identifier of a thread. *)
Record registry_ok (s : App) : Prop := mk_registry_ok {
  reg_counter : _download_counter s = Z.of_nat (length (threads s)) + 1;
  reg_threads :
    forall t w, threads s !! t = Some w ->
      wk_dlid w = Z.of_nat t + 1 /\
      exists item, downloads s !! wk_dlid w = Some item /\
                   it_id item = wk_dlid w /\ it_url item = wk_url w /\
                   it_thread item = Some t;
  reg_items :
    forall k, is_Some (downloads s !! k) -> 1 <= k < _download_counter s }.

(** What only [start_download] writes in an item. *)
Definition item_key (item : DownloadItem) : Z * pystr * option nat :=
  (it_id item, it_url item, it_thread item).

(** ** File paths *)

(** An item holds a file path only from a [done] event of its job that
    was handled. *)
Definition paths_ok (s : App) : Prop :=
  forall k item, downloads s !! k = Some item -> it_filepath item <> [] ->
    EvDone k (it_filepath item) ∈ handled s.

(** Two states with the same jobs: the same counter, items with the same
    identifier, URL and thread, and threads with the same job and URL. *)
Definition same_jobs (s s' : App) : Prop :=
  _download_counter s' = _download_counter s /\
  (forall k, item_key <$> downloads s' !! k = item_key <$> downloads s !! k) /\
  (fun w => (wk_dlid w, wk_url w)) <$> threads s'
  = (fun w => (wk_dlid w, wk_url w)) <$> threads s.

(** ** Worker steps *)

(** The thread that takes the step, for the steps of a worker. *)
Definition worker_action (a : Action) : option nat :=
  match a with
  | Hook t _ | FetchReturns t _ | FetchRaises t _ | Handle t => Some t
  | _ => None
  end.

(** ** Terminal events and what causes them *)

(** The terminal events published for job [dlid], oldest first. *)
Definition terminal_events (dlid : Z) (evs : list Event) : list Event :=
  filter (fun ev => is_terminal ev = true) (events_of dlid evs).

(** The terminal event the specification has the worker [w] of thread
    [t] publish at a step: [done] with the file path when its fetch
    returns; from its error handler the cancelled status when the
    exception is a cancellation (its text holds [USER_CANCELLED], or the
    cancellation event is set) and otherwise the failed status with the
    text of the exception; and nothing at any other step. *)
Definition expected_terminal (a : Action) (s : App) (t : nat) (w : Worker)
    : list Event :=
  match a with
  | FetchReturns t' filepath =>
      if decide (t' = t) then [EvDone (wk_dlid w) filepath] else []
  | Handle t' =>
      if decide (t' = t) then
        match wk_pc w with
        | Raised msg =>
            if contains s_user_cancelled msg || cancel_is_set (wk_dlid w) s
            then [EvStatus (wk_dlid w) s_cancelled]
            else [EvStatus (wk_dlid w) (s_error_prefix ++ msg)]
        | _ => []
        end
      else []
  | _ => []
  end.

(** ** Stop buttons *)

(** The status of an item in a terminal state: [done], the cancelled
    status or a failed status. *)
Definition terminal_status (text : pystr) : bool :=
  bool_decide (text = s_done) || bool_decide (text = s_cancelled)
  || starts_with s_error_prefix text.

(** No status event carries the status of [_set_download_done]. *)
Definition status_event_ok (ev : Event) : Prop :=
  match ev with
  | EvStatus _ text => text <> s_done
  | _ => True
  end.

(** The stop button of a row whose item is in a terminal state is
    disabled. *)
Definition buttons_ok (m : gmap Z DownloadItem) : Prop :=
  forall k item w,
    m !! k = Some item -> it_widgets item = Some w ->
    terminal_status (it_status item) = true -> w_stop_btn w = false.

Definition stop_ok (s : App) : Prop :=
  Forall status_event_ok (event_q s) /\ buttons_ok (downloads s).

(** ** The percentage of the specification *)

(** [floor(bytesDownloaded / totalBytes * 100)], in exact arithmetic. *)
Definition spec_percent (downloaded total : Z) : Z :=
  downloaded * 100 / total.

(** ** The timer of the URL entry *)


(** ** Frame properties of the operations *)

Lemma run_app (tr1 tr2 : list Action) (s : App) :
  run (tr1 ++ tr2) s = run tr1 s ≫= run tr2.
Proof.
  revert s. induction tr1 as [|a tr1 IH]; intros s; simpl; [done|].
  destruct (step a s); simpl; auto.
Qed.

(** An invariant of the steps holds in every state an interleaving
    leads to. *)
Lemma run_invariant (P : App -> Prop) :
  (forall a s s', P s -> step a s = Some s' -> P s') ->
  forall tr s s', P s -> run tr s = Some s' -> P s'.
Proof.
  intros Hstep tr. induction tr as [|a tr IH]; intros s s' HP Hrun; simpl in Hrun.
  - by inversion Hrun; subst.
  - destruct (step a s) as [s1|] eqn:Hs; [|done]. eauto.
Qed.

Lemma reachable_invariant (P : App -> Prop) :
  P init ->
  (forall a s s', P s -> step a s = Some s' -> P s') ->
  forall s, reachable s -> P s.
Proof. intros H0 Hstep s [tr Htr]. eapply run_invariant; eauto. Qed.

Lemma reachable_run (tr : list Action) (s s' : App) :
  reachable s -> run tr s = Some s' -> reachable s'.
Proof.
  intros [tr0 H0] H. exists (tr0 ++ tr). rewrite run_app, H0. done.
Qed.

(** A click on a stop button calls [_stop_download] or does nothing. *)
Lemma stop_btn_click_cases (k : Z) (s : App) :
  stop_btn_click k s = s \/ stop_btn_click k s = _stop_download k s.
Proof. unfold stop_btn_click. repeat case_match; auto. Qed.

Ltac handler_cases :=
  unfold dispatch, _add_download_row, _update_download_row,
    _set_download_status, _set_download_done;
  repeat case_match; simpl in *; try done.

(** The handlers write [downloads] only. *)
Lemma dispatch_frame (ev : Event) (s : App) :
  let s' := (dispatch ev s).1 in
  _download_counter s' = _download_counter s /\ event_q s' = event_q s /\
  handled s' = handled s /\ threads s' = threads s /\
  log_q s' = log_q s /\ log_text s' = log_text s /\ dialogs s' = dialogs s.
Proof. destruct ev; handler_cases. Qed.

Lemma dom_insert_present (m : gmap Z DownloadItem) (k : Z)
    (x y : DownloadItem) :
  m !! k = Some x -> dom (<[k := y]> m) = dom m.
Proof.
  intros H. rewrite dom_insert_L.
  apply subseteq_union_1_L, singleton_subseteq_l, elem_of_dom. eauto.
Qed.

Lemma dispatch_dom (ev : Event) (s : App) :
  dom (downloads (dispatch ev s).1) = dom (downloads s).
Proof. destruct ev; handler_cases; eauto using dom_insert_present. Qed.

(** No handler touches a cancellation event. *)
Lemma dispatch_cancel_event (ev : Event) (s : App) (k : Z) :
  it_cancel_event <$> downloads (dispatch ev s).1 !! k
  = it_cancel_event <$> downloads s !! k.
Proof.
  destruct ev as [i ?|i ? ? ?|i ?|i ?]; simpl;
    unfold _add_download_row, _update_download_row, _set_download_status,
      _set_download_done;
    destruct (downloads s !! i) as [item|] eqn:Hi; simpl; try done;
    try destruct (it_widgets item); simpl;
    (destruct (decide (i = k)) as [->|];
     [rewrite lookup_insert_eq, Hi | rewrite lookup_insert_ne by done]; done).
Qed.

Lemma cancel_is_set_alt (k : Z) (s : App) :
  cancel_is_set k s
  = match it_cancel_event <$> downloads s !! k with
    | Some (Some flag) => flag
    | _ => false
    end.
Proof. unfold cancel_is_set. by destruct (downloads s !! k). Qed.

Lemma dispatch_cancel (ev : Event) (s : App) (k : Z) :
  cancel_is_set k (dispatch ev s).1 = cancel_is_set k s.
Proof. by rewrite !cancel_is_set_alt, dispatch_cancel_event. Qed.

Lemma drain_events_preserves (P : App -> Prop) :
  (forall ev q s, P s -> P (take_event ev q s)) ->
  (forall ev s, P s -> P (dispatch ev s).1) ->
  forall q s, P s -> P (drain_events q s).1.
Proof.
  intros Ht Hd q. induction q as [|ev q IH]; intros s HP; simpl; [done|].
  pose proof (Hd ev _ (Ht ev q s HP)) as H.
  destruct (dispatch ev (take_event ev q s)) as [s' [|]]; simpl in H; auto.
Qed.

(** [_flush_logs] moves events from the queue to the handled ones and
    keeps their order. *)
Lemma drain_events_history (q : list Event) (s : App) :
  event_q s = q -> history (drain_events q s).1 = history s.
Proof.
  revert s. induction q as [|ev q IH]; intros s Hq; simpl; [done|].
  pose proof (dispatch_frame ev (take_event ev q s)) as F.
  destruct (dispatch ev (take_event ev q s)) as [s' r]; simpl in F.
  destruct F as (_ & Hq' & Hh' & _).
  assert (history s' = history s) as Hs'.
  { unfold history. rewrite Hq', Hh', Hq, <- app_assoc. done. }
  destruct r; [done|]. rewrite IH; done.
Qed.

Lemma flush_history (s : App) : history (_flush_logs s).1 = history s.
Proof. unfold _flush_logs. by rewrite drain_events_history. Qed.

Lemma flush_threads (s : App) : threads (_flush_logs s).1 = threads s.
Proof.
  unfold _flush_logs.
  apply (drain_events_preserves (fun s' => threads s' = threads s)); try done.
  intros ev s' <-. apply dispatch_frame.
Qed.

Lemma flush_counter (s : App) :
  _download_counter (_flush_logs s).1 = _download_counter s.
Proof.
  unfold _flush_logs.
  apply (drain_events_preserves
           (fun s' => _download_counter s' = _download_counter s)); try done.
  intros ev s' <-. apply dispatch_frame.
Qed.

Lemma flush_dom (s : App) :
  dom (downloads (_flush_logs s).1) = dom (downloads s).
Proof.
  unfold _flush_logs.
  apply (drain_events_preserves
           (fun s' => dom (downloads s') = dom (downloads s))); try done.
  intros ev s' <-. apply dispatch_dom.
Qed.

Lemma flush_cancel (s : App) (k : Z) :
  cancel_is_set k (_flush_logs s).1 = cancel_is_set k s.
Proof.
  unfold _flush_logs.
  apply (drain_events_preserves
           (fun s' => cancel_is_set k s' = cancel_is_set k s)); try done.
  intros ev s' <-. apply dispatch_cancel.
Qed.

(** *** Counting terminal events and exited threads *)

Lemma terminal_count_snoc (dlid : Z) (evs : list Event) (ev : Event) :
  terminal_count dlid (evs ++ [ev])
  = (terminal_count dlid evs
     + if decide (event_id ev = dlid) then
         if is_terminal ev then 1 else 0
       else 0)%nat.
Proof.
  unfold terminal_count, events_of.
  rewrite filter_app, filter_app, length_app. f_equal.
  rewrite filter_cons, filter_nil.
  destruct (decide (event_id ev = dlid)); simpl; [|done].
  rewrite filter_cons, filter_nil.
  destruct (is_terminal ev); simpl; repeat case_decide; done.
Qed.

Lemma exited_count_snoc (dlid : Z) (ts : list Worker) (w : Worker) :
  exited_count dlid (ts ++ [w])
  = (exited_count dlid ts
     + if decide (wk_dlid w = dlid /\ wk_pc w = Exited) then 1 else 0)%nat.
Proof.
  unfold exited_count. rewrite filter_app, length_app. f_equal.
  rewrite filter_cons, filter_nil. by case_decide.
Qed.

(** Moving a thread that has not exited to another point. *)
Lemma exited_count_insert (dlid : Z) (ts : list Worker) (t : nat)
    (w : Worker) (pc : Pc) :
  ts !! t = Some w -> wk_pc w <> Exited ->
  exited_count dlid (<[t := mkWorker (wk_dlid w) (wk_url w) pc]> ts)
  = (exited_count dlid ts
     + if decide (wk_dlid w = dlid /\ pc = Exited) then 1 else 0)%nat.
Proof.
  intros Ht Hpc. unfold exited_count.
  rewrite insert_take_drop by (eapply lookup_lt_Some; eauto).
  rewrite <- (take_drop_middle ts t w Ht) at 3.
  rewrite !filter_app, !filter_cons, !length_app. simpl.
  destruct (decide (wk_dlid w = dlid /\ wk_pc w = Exited)) as [[_ ?]|_];
    [done|].
  case_decide; simpl; lia.
Qed.

Lemma threads_set_pc (t : nat) (pc : Pc) (s : App) (w : Worker) :
  threads s !! t = Some w ->
  threads (set_pc t pc s) = <[t := mkWorker (wk_dlid w) (wk_url w) pc]> (threads s).
Proof. intros H. unfold set_pc, with_threads. simpl. by rewrite H. Qed.

Lemma history_put_event (ev : Event) (s : App) :
  history (put_event ev s) = history s ++ [ev].
Proof. unfold history. simpl. by rewrite app_assoc. Qed.

Lemma finalizing_not_terminal (dlid : Z) :
  is_terminal (EvStatus dlid s_finalizing) = false.
Proof. reflexivity. Qed.

Lemma starts_with_app (p s : pystr) : starts_with p (p ++ s) = true.
Proof. induction p as [|a p IH]; simpl; [done|]. by rewrite N.eqb_refl. Qed.

Lemma error_status_terminal (dlid : Z) (msg : pystr) :
  is_terminal (EvStatus dlid (s_error_prefix ++ msg)) = true.
Proof. unfold is_terminal. rewrite starts_with_app. apply orb_true_r. Qed.

(** *** One terminal event per exited thread *)

Lemma history_set_pc (t : nat) (pc : Pc) (s : App) :
  history (set_pc t pc s) = history s.
Proof. done. Qed.

Lemma progress_hook_history (dlid : Z) (d : HookDict) (s : App) :
  let r := progress_hook dlid d s in
  threads r.1 = threads s /\
  _download_counter r.1 = _download_counter s /\
  downloads r.1 = downloads s /\
  (history r.1 = history s \/
   (r.2 = None /\
    ((exists perc, hook_percent d = inl perc /\
        history r.1
        = history s ++ [EvProgress dlid perc (hook_speed d)
                                   (hook_eta d)]) \/
     history r.1 = history s ++ [EvStatus dlid s_finalizing]))).
Proof.
  unfold progress_hook.
  destruct (decide (get (d_status d) = VStr s_downloading)).
  - destruct (hook_percent d) as [perc|msg] eqn:Hp; simpl; [|auto].
    destruct (cancel_is_set dlid s); simpl; [auto|].
    repeat split; try done. right. split; [done|]. left. exists perc.
    split; [done|]. apply history_put_event.
  - destruct (decide (get (d_status d) = VStr s_finished)); simpl; [|auto].
    repeat split; try done. right. split; [done|]. right.
    apply history_put_event.
Qed.

Ltac count_cases :=
  repeat case_decide; simpl in *; try lia;
  try (exfalso; intuition congruence).

Lemma step_counts_agree (a : Action) (s s' : App) :
  counts_agree s -> step a s = Some s' -> counts_agree s'.
Proof.
  intros Inv Hstep dlid. specialize (Inv dlid).
  destruct a as [url|k| |t d|t path|t msg|t]; simpl in Hstep.
  - (* Submit *)
    inversion Hstep; subst; clear Hstep. unfold start_download.
    destruct (PyStr.truthy (strip url)); simpl; [|done].
    unfold history in *; simpl. rewrite app_assoc.
    rewrite terminal_count_snoc, exited_count_snoc, Inv. simpl.
    count_cases.
  - (* Stop *)
    inversion Hstep; subst; clear Hstep.
    destruct (stop_btn_click_cases k s) as [-> | ->]; [done|].
    unfold _stop_download. by destruct (downloads s !! k).
  - (* Flush *)
    inversion Hstep; subst; clear Hstep.
    by rewrite flush_history, flush_threads.
  - (* Hook *)
    destruct (threads s !! t) as [[i u [| |]]|] eqn:Ht; try done.
    pose proof (progress_hook_history i d s) as (Hth & _ & _ & Hh).
    destruct (progress_hook i d s) as [s1 [msg|]]; simpl in *;
      inversion Hstep; subst; clear Hstep.
    + rewrite history_set_pc.
      rewrite (threads_set_pc _ _ _ (mkWorker i u Running)) by congruence.
      rewrite Hth, exited_count_insert by done. simpl.
      destruct Hh as [->|[? _]]; [|done]. rewrite Inv.
      count_cases.
    + rewrite Hth.
      destruct Hh as [->|[_ [(perc & _ & ->)| ->]]]; [done| |];
        rewrite terminal_count_snoc, Inv; simpl; count_cases.
  - (* FetchReturns *)
    destruct (threads s !! t) as [[i u [| |]]|] eqn:Ht; try done.
    inversion Hstep; subst; clear Hstep.
    rewrite history_set_pc.
    rewrite (threads_set_pc _ _ _ (mkWorker i u Running)) by done.
    unfold worker_success. simpl threads.
    rewrite exited_count_insert by done.
    change (history (put_log ?m ?x)) with (history x).
    rewrite history_put_event, terminal_count_snoc, Inv. simpl.
    count_cases.
  - (* FetchRaises *)
    destruct (threads s !! t) as [[i u [| |]]|] eqn:Ht; try done.
    inversion Hstep; subst; clear Hstep.
    rewrite history_set_pc.
    rewrite (threads_set_pc _ _ _ (mkWorker i u Running)) by done.
    rewrite exited_count_insert by done. rewrite Inv. simpl.
    count_cases.
  - (* Handle *)
    destruct (threads s !! t) as [[i u [|msg|]]|] eqn:Ht; try done.
    inversion Hstep; subst; clear Hstep.
    rewrite history_set_pc.
    assert (threads (worker_except i msg s) = threads s) as Hth.
    { unfold worker_except. by case_match. }
    rewrite (threads_set_pc _ _ _ (mkWorker i u (Raised msg)))
      by (by rewrite Hth).
    rewrite Hth, exited_count_insert by done.
    unfold worker_except.
    destruct (contains s_user_cancelled msg || cancel_is_set i s);
      change (history (put_log ?m ?x)) with (history x);
      rewrite history_put_event, terminal_count_snoc, Inv;
      [|rewrite error_status_terminal]; simpl;
      count_cases.
Qed.

(** *** The shape of a step *)

Lemma thread_ids_set_pc (t : nat) (pc : Pc) (s : App) :
  thread_ids (set_pc t pc s) = thread_ids s.
Proof.
  unfold thread_ids, set_pc, with_threads. simpl.
  destruct (threads s !! t) as [w|] eqn:Ht; [|done].
  rewrite list_fmap_insert. simpl. apply list_insert_id.
  by rewrite list_lookup_fmap, Ht.
Qed.

Lemma stop_dom (k : Z) (s : App) :
  dom (downloads (_stop_download k s)) = dom (downloads s).
Proof.
  unfold _stop_download. destruct (downloads s !! k) eqn:Hk; [|done].
  simpl. eauto using dom_insert_present.
Qed.

Lemma worker_except_frame (i : Z) (msg : pystr) (s : App) :
  let s' := worker_except i msg s in
  threads s' = threads s /\ _download_counter s' = _download_counter s /\
  downloads s' = downloads s /\
  exists text, history s' = history s ++ [EvStatus i text].
Proof.
  unfold worker_except.
  destruct (contains s_user_cancelled msg || cancel_is_set i s); simpl;
    repeat split; try done; eexists;
    change (history (put_log ?m ?x)) with (history x);
    apply history_put_event.
Qed.

Lemma thread_id_elem (t : nat) (w : Worker) (s : App) :
  threads s !! t = Some w -> wk_dlid w ∈ thread_ids s.
Proof.
  intros Ht. unfold thread_ids. apply list_elem_of_fmap. exists w.
  split; [done|]. eapply list_elem_of_lookup_2; eauto.
Qed.

Ltac quiet :=
  left; unfold quiet_step;
  rewrite ?thread_ids_set_pc, ?history_set_pc;
  change (downloads (set_pc ?t ?pc ?x)) with (downloads x);
  change (_download_counter (set_pc ?t ?pc ?x)) with (_download_counter x).

Lemma step_shape (a : Action) (s s' : App) :
  step a s = Some s' -> quiet_step s s' \/ submit_step s s'.
Proof.
  intros Hstep.
  destruct a as [url|k| |t d|t path|t msg|t]; simpl in Hstep.
  - inversion Hstep; subst; clear Hstep. unfold start_download.
    destruct (PyStr.truthy (strip url)); simpl.
    + right. repeat split; simpl.
      * by rewrite dom_insert_L.
      * unfold thread_ids. simpl. by rewrite fmap_app.
      * unfold history. simpl. by rewrite app_assoc.
    + left. repeat split; auto.
  - inversion Hstep; subst; clear Hstep. left.
    destruct (stop_btn_click_cases k s) as [-> | ->];
      [repeat split; auto|].
    repeat split; auto using stop_dom; unfold _stop_download;
      destruct (downloads s !! k); auto.
  - inversion Hstep; subst; clear Hstep. left.
    repeat split; auto using flush_counter, flush_dom, flush_history.
    unfold thread_ids. by rewrite flush_threads.
  - destruct (threads s !! t) as [[i u [| |]]|] eqn:Ht; try done.
    pose proof (progress_hook_history i d s) as (Hth & Hc & Hd & Hh).
    apply thread_id_elem in Ht.
    assert (thread_ids (progress_hook i d s).1 = thread_ids s) as Hids
      by (unfold thread_ids; congruence).
    destruct (progress_hook i d s) as [s1 [msg|]]; simpl in *;
      inversion Hstep; subst; clear Hstep; quiet;
      (split; [done|split; [by rewrite Hd|split; [done|]]]);
      (destruct Hh as [->|[_ [(perc & _ & ->)| ->]]];
       [by left|right; eexists; split; [done|done]..]).
  - destruct (threads s !! t) as [[i u [| |]]|] eqn:Ht; try done.
    inversion Hstep; subst; clear Hstep. apply thread_id_elem in Ht.
    quiet. repeat split; try done. right. exists (EvDone i path).
    split; [|done]. unfold worker_success.
    change (history (put_log ?m ?x)) with (history x).
    apply history_put_event.
  - destruct (threads s !! t) as [[i u [| |]]|] eqn:Ht; try done.
    inversion Hstep; subst; clear Hstep. quiet. repeat split; auto.
  - destruct (threads s !! t) as [[i u [|msg|]]|] eqn:Ht; try done.
    inversion Hstep; subst; clear Hstep. apply thread_id_elem in Ht.
    pose proof (worker_except_frame i msg s) as (Hth & Hc & Hd & text & Hh).
    quiet.
    repeat split; try done; [by rewrite Hd|unfold thread_ids; congruence|].
    right. exists (EvStatus i text). done.
Qed.

(** *** Identifiers *)

Lemma increasing_app (l1 l2 : list Z) :
  increasing (l1 ++ l2) <->
  increasing l1 /\ increasing l2 /\
  Forall (fun a => Forall (fun b => a < b) l2) l1.
Proof.
  induction l1 as [|x l1 IH]; simpl.
  - intuition.
  - rewrite Forall_app, Forall_cons, IH. intuition.
Qed.

Lemma ids_ok_init : ids_ok init.
Proof. split; simpl; done. Qed.

Lemma ids_ok_step (a : Action) (s s' : App) :
  ids_ok s -> step a s = Some s' -> ids_ok s'.
Proof.
  intros [Hd Ht Hi Hh] Hstep.
  destruct (step_shape a s s' Hstep) as
    [(Hc & Hdom & Hids & Hhist)|(Hc & Hdom & Hids & Hhist)].
  - split; rewrite ?Hc, ?Hdom, ?Hids; try done.
    destruct Hhist as [->|(ev & -> & Hev)]; [done|].
    apply Forall_app; split; [done|]. by apply Forall_singleton.
  - split; rewrite ?Hc, ?Hdom, ?Hids, ?Hhist.
    + intros k [->%elem_of_singleton|Hk]%elem_of_union; [lia|].
      specialize (Hd k Hk). lia.
    + apply Forall_app; split.
      * eapply Forall_impl; [exact Ht|]. simpl. intros i [? ?].
        split; [lia|]. apply elem_of_union; auto.
      * apply Forall_singleton. split; [lia|].
        apply elem_of_union; left. by apply elem_of_singleton.
    + apply increasing_app. repeat split; simpl; auto.
      eapply Forall_impl; [exact Ht|]. simpl. intros i [? ?].
      by apply Forall_singleton.
    + apply Forall_app; split.
      * eapply Forall_impl; [exact Hh|]. simpl. intros ev ?.
        apply elem_of_app; auto.
      * apply Forall_singleton. simpl. apply elem_of_app; right.
        by apply list_elem_of_singleton.
Qed.

Lemma reachable_ids_ok (s : App) : reachable s -> ids_ok s.
Proof. apply reachable_invariant; eauto using ids_ok_init, ids_ok_step. Qed.

Lemma reachable_counts_agree (s : App) : reachable s -> counts_agree s.
Proof.
  apply reachable_invariant; eauto using step_counts_agree.
  intros dlid. reflexivity.
Qed.

Lemma exited_count_none (i : Z) (ts : list Worker) :
  Forall (fun w => wk_dlid w <> i) ts -> exited_count i ts = 0%nat.
Proof.
  unfold exited_count. induction 1 as [|w ts Hw _ IH]; [done|].
  rewrite filter_cons. case_decide; [|done]. intuition.
Qed.

(** With increasing identifiers a job has one thread. *)
Lemma exited_count_unique (ts : list Worker) (t : nat) (w : Worker) :
  increasing (wk_dlid <$> ts) -> ts !! t = Some w ->
  exited_count (wk_dlid w) ts
  = if decide (wk_pc w = Exited) then 1%nat else 0%nat.
Proof.
  intros Hinc Ht. rewrite <- (take_drop_middle ts t w Ht) in Hinc |- *.
  rewrite fmap_app, fmap_cons in Hinc.
  apply increasing_app in Hinc as (_ & [Hgt _] & Hlt).
  unfold exited_count in *. rewrite filter_app, filter_cons, length_app.
  fold (exited_count (wk_dlid w) (take t ts)).
  rewrite exited_count_none.
  2:{ rewrite Forall_fmap in Hlt. eapply Forall_impl; [exact Hlt|].
      simpl. intros w' Hw'. apply Forall_cons in Hw' as [? _]. lia. }
  assert (exited_count (wk_dlid w) (drop (S t) ts) = 0%nat) as H0.
  { apply exited_count_none. rewrite Forall_fmap in Hgt.
    eapply Forall_impl; [exact Hgt|]. simpl. intros w' ?. lia. }
  unfold exited_count in H0.
  repeat case_decide; simpl; rewrite ?H0; intuition.
Qed.

(** A worker that has not left the [try] statement can leave it: the
    fetch may return or raise, and the [except] clause always ends. *)
Lemma worker_can_exit (s : App) (t : nat) (w : Worker) :
  threads s !! t = Some w ->
  exists tr s' w', run tr s = Some s' /\ threads s' !! t = Some w' /\
                   wk_pc w' = Exited /\ wk_dlid w' = wk_dlid w.
Proof.
  intros Ht. destruct w as [i u pc]. destruct pc as [|msg|].
  - exists [FetchReturns t []]. eexists. exists (mkWorker i u Exited).
    simpl. rewrite Ht. split; [done|].
    rewrite (threads_set_pc _ _ _ (mkWorker i u Running)) by done.
    rewrite list_lookup_insert_eq by (eapply lookup_lt_Some; eauto). done.
  - exists [Handle t]. eexists. exists (mkWorker i u Exited).
    simpl. rewrite Ht. split; [done|].
    pose proof (worker_except_frame i msg s) as (Hth & _).
    rewrite (threads_set_pc _ _ _ (mkWorker i u (Raised msg)))
      by (by rewrite Hth).
    rewrite Hth.
    rewrite list_lookup_insert_eq by (eapply lookup_lt_Some; eauto). done.
  - exists []. exists s. exists (mkWorker i u Exited). done.
Qed.

(** The terminal events of the job of a thread: one once the thread has
    left the [try] statement, none before. *)
Lemma terminal_count_thread (s : App) (t : nat) (w : Worker) :
  reachable s -> threads s !! t = Some w ->
  terminal_count (wk_dlid w) (history s)
  = if decide (wk_pc w = Exited) then 1%nat else 0%nat.
Proof.
  intros Hs Ht. rewrite (reachable_counts_agree s Hs).
  eapply exited_count_unique; eauto.
  apply (ids_increasing s), reachable_ids_ok, Hs.
Qed.

(** *** [_flush_logs] never raises *)

Lemma dispatch_dl_eq (ev : Event) (s : App) :
  downloads (dispatch ev s).1 = (dispatch_dl ev (downloads s)).1 /\
  (dispatch ev s).2 = (dispatch_dl ev (downloads s)).2.
Proof.
  unfold dispatch_dl.
  destruct ev as [i ?|i ? ? ?|i ?|i ?]; simpl;
    unfold _add_download_row, _update_download_row, _set_download_status,
      _set_download_done; simpl;
    destruct (downloads s !! i) as [item|]; simpl; try done;
    destruct (it_widgets item); done.
Qed.

Lemma drain_dl_eq (q : list Event) (s : App) :
  downloads (drain_events q s).1 = (drain_dl q (downloads s)).1 /\
  (drain_events q s).2 = (drain_dl q (downloads s)).2.
Proof.
  revert s. induction q as [|ev q IH]; intros s; [done|].
  cbn [drain_events drain_dl].
  pose proof (dispatch_dl_eq ev (take_event ev q s)) as [Hd Hr].
  change (downloads (take_event ev q s)) with (downloads s) in *.
  destruct (dispatch ev (take_event ev q s)) as [s' r].
  destruct (dispatch_dl ev (downloads s)) as [m' r'].
  cbn [fst snd] in *. subst. simpl. destruct r'; [done|]. apply IH.
Qed.

(** When no handler raises the queue ends up empty and all its events
    are handled, in order. *)
Lemma drain_events_queue (q : list Event) (s : App) :
  (drain_events q s).2 = false -> event_q s = q ->
  event_q (drain_events q s).1 = [] /\
  handled (drain_events q s).1 = handled s ++ q.
Proof.
  revert s. induction q as [|ev q IH]; intros s Hr Hq; simpl in *.
  - by rewrite app_nil_r.
  - pose proof (dispatch_frame ev (take_event ev q s)) as (_ & Hq' & Hh' & _).
    destruct (dispatch ev (take_event ev q s)) as [s' [|]]; [done|].
    simpl in *. destruct (IH s' Hr Hq') as [-> ->].
    by rewrite Hh', <- app_assoc.
Qed.

(** What a handler does to the items: whether it raises, and which
    items are without widgets afterwards. *)
Lemma dispatch_dl_rows (ev : Event) (m : gmap Z DownloadItem) :
  let r := dispatch_dl ev m in
  dom r.1 = dom m /\
  (forall k, rowless r.1 k ->
             rowless m k /\ forall title, ev <> EvAdd k title) /\
  (r.2 = true ->
   (exists k title, ev = EvAdd k title /\ k ∉ dom m) \/
   (exists k p sp e, ev = EvProgress k p sp e /\ rowless m k)).
Proof.
  unfold dispatch_dl, rowless.
  destruct ev as [i tt|i p sp e|i tx|i fp]; simpl;
    unfold _add_download_row, _update_download_row, _set_download_status,
      _set_download_done; simpl;
    destruct (m !! i) as [item|] eqn:Hi; simpl;
    try destruct (it_widgets item) as [w|] eqn:Hw; simpl;
    (split; [eauto using dom_insert_present|]);
    (split;
     [intros k (it' & Hk & Hnone);
      try (destruct (decide (i = k)) as [->|Hne];
           [rewrite lookup_insert_eq in Hk; simplify_eq; simpl in *;
            try done
           |rewrite lookup_insert_ne in Hk by done]);
      (split; [eauto|intros ? ?; simplify_eq; try congruence])
     |intros Hr; try done]).
  - left. exists i, tt. split; [done|]. by apply not_elem_of_dom.
  - right. exists i, p, sp, e. eauto.
Qed.

Lemma add_first_snoc (k : Z) (q : list Event) (ev : Event) :
  add_first k q -> add_first k (q ++ [ev]).
Proof.
  induction q as [|e q IH]; simpl; [done|].
  destruct e; intuition.
Qed.

Lemma add_first_snoc_add (k : Z) (q : list Event) (title : pystr) :
  Forall (fun ev => event_id ev <> k) q ->
  add_first k (q ++ [EvAdd k title]).
Proof.
  induction 1 as [|e q He _ IH]; simpl; [auto|].
  destruct e; simpl in *; intuition.
Qed.

Lemma queue_ok_drain (q : list Event) (m : gmap Z DownloadItem) :
  queue_ok m q ->
  (drain_dl q m).2 = false /\ dom (drain_dl q m).1 = dom m /\
  forall k, ~ rowless (drain_dl q m).1 k.
Proof.
  revert m. induction q as [|ev q IH]; intros m [Hrow Hdom].
  - repeat split; try done.
  - cbn [drain_dl]. apply Forall_cons in Hdom as [Hev Hdom].
    pose proof (dispatch_dl_rows ev m) as (Hd & Hr & Hraise).
    destruct (dispatch_dl ev m) as [m' r]. cbn [fst snd] in *.
    destruct r.
    + exfalso.
      destruct (Hraise eq_refl)
        as [(k & tt & -> & Hk)|(k & p & sp & e & -> & Hk)].
      * done.
      * specialize (Hrow k Hk). simpl in Hrow. intuition.
    + destruct (IH m') as (? & Hd' & ?).
      * split; [|by rewrite Hd].
        intros k Hk. destruct (Hr k Hk) as [Hk' Hne].
        specialize (Hrow k Hk'). destruct ev; simpl in Hrow; try done.
        -- destruct Hrow as [->|?]; [|done]. by destruct (Hne title).
        -- intuition.
      * repeat split; try done. by rewrite Hd'.
Qed.

Lemma queue_ok_snoc (m : gmap Z DownloadItem) (q : list Event) (ev : Event) :
  queue_ok m q -> event_id ev ∈ dom m -> queue_ok m (q ++ [ev]).
Proof.
  intros [Hrow Hdom] Hev. split.
  - intros k Hk. apply add_first_snoc, Hrow, Hk.
  - apply Forall_app. split; [done|]. by apply Forall_singleton.
Qed.

Lemma thread_has_item (s : App) (t : nat) (w : Worker) :
  ids_ok s -> threads s !! t = Some w -> wk_dlid w ∈ dom (downloads s).
Proof.
  intros Hids Ht. apply thread_id_elem in Ht.
  pose proof (ids_threads s Hids) as Hall.
  rewrite Forall_forall in Hall. by destruct (Hall _ Ht).
Qed.

Lemma rows_ok_step (a : Action) (s s' : App) :
  ids_ok s -> rows_ok s -> step a s = Some s' -> rows_ok s'.
Proof.
  intros Hids Hrows Hstep. unfold rows_ok in *.
  destruct a as [url|k| |t d|t path|t msg|t]; simpl in Hstep.
  - (* Submit *)
    inversion Hstep; subst; clear Hstep. unfold start_download.
    destruct (PyStr.truthy (strip url)); simpl; [|done].
    destruct Hrows as [Hrow Hdom]. set (c := _download_counter s).
    split.
    + intros k (item & Hk & Hnone).
      destruct (decide (c = k)) as [<-|Hne].
      * apply add_first_snoc_add.
        pose proof (ids_history s Hids) as Hh. unfold history in Hh.
        apply Forall_app in Hh as [_ Hh].
        eapply Forall_impl; [exact Hh|]. simpl. intros ev Hev.
        pose proof (ids_threads s Hids) as Hall.
        rewrite Forall_forall in Hall. destruct (Hall _ Hev). unfold c. lia.
      * rewrite lookup_insert_ne in Hk by done.
        apply add_first_snoc, Hrow. by exists item.
    + apply Forall_app. split.
      * eapply Forall_impl; [exact Hdom|]. simpl. intros ev Hev.
        rewrite dom_insert_L. apply elem_of_union; auto.
      * apply Forall_singleton. simpl. rewrite dom_insert_L.
        apply elem_of_union; left. by apply elem_of_singleton.
  - (* Stop *)
    inversion Hstep; subst; clear Hstep.
    destruct (stop_btn_click_cases k s) as [-> | ->]; [done|].
    pose proof (stop_dom k s) as Hd. unfold _stop_download in *.
    destruct (downloads s !! k) as [item|] eqn:Hk; [|done]. simpl in *.
    destruct Hrows as [Hrow Hdom]. split; [|by rewrite Hd].
    intros j (it' & Hj & Hnone). apply Hrow.
    destruct (decide (k = j)) as [->|Hne].
    + rewrite lookup_insert_eq in Hj. simplify_eq. simpl in Hnone.
      exists item. split; [done|]. by destruct (it_widgets item).
    + rewrite lookup_insert_ne in Hj by done. by exists it'.
  - (* Flush *)
    inversion Hstep; subst; clear Hstep. unfold _flush_logs.
    set (s1 := mkApp _ _ _ _ _ _ _ _).
    destruct (queue_ok_drain (event_q s) (downloads s) Hrows)
      as (Hr & Hd & Hnone).
    destruct (drain_dl_eq (event_q s1) s1) as [Hdl Hrl].
    change (event_q s1) with (event_q s) in *.
    change (downloads s1) with (downloads s) in *.
    destruct (drain_events_queue (event_q s) s1) as [Hq _];
      [congruence|done|].
    rewrite Hq, Hdl. split; [|done]. intros k Hk. by destruct (Hnone k).
  - (* Hook *)
    destruct (threads s !! t) as [[i u [| |]]|] eqn:Ht; try done.
    pose proof (thread_has_item s t _ Hids Ht) as Hi. simpl in Hi.
    assert (rows_ok (progress_hook i d s).1) as H1.
    { unfold rows_ok, progress_hook.
      destruct (decide (get (d_status d) = VStr s_downloading)).
      - destruct (hook_percent d); simpl; [|done].
        destruct (cancel_is_set i s); simpl; [done|].
        by apply queue_ok_snoc.
      - destruct (decide (get (d_status d) = VStr s_finished)); simpl; [|done].
        by apply queue_ok_snoc. }
    unfold rows_ok in H1.
    destruct (progress_hook i d s) as [s1 [msg|]]; simpl in *;
      inversion Hstep; subst; clear Hstep; done.
  - (* FetchReturns *)
    destruct (threads s !! t) as [[i u [| |]]|] eqn:Ht; try done.
    pose proof (thread_has_item s t _ Hids Ht) as Hi. simpl in Hi.
    inversion Hstep; subst; clear Hstep. simpl. by apply queue_ok_snoc.
  - (* FetchRaises *)
    destruct (threads s !! t) as [[i u [| |]]|] eqn:Ht; try done.
    inversion Hstep; subst; clear Hstep. done.
  - (* Handle *)
    destruct (threads s !! t) as [[i u [|msg|]]|] eqn:Ht; try done.
    pose proof (thread_has_item s t _ Hids Ht) as Hi. simpl in Hi.
    inversion Hstep; subst; clear Hstep. unfold worker_except.
    destruct (contains s_user_cancelled msg || cancel_is_set i s); simpl;
      by apply queue_ok_snoc.
Qed.

Lemma reachable_rows_ok (s : App) : reachable s -> ids_ok s /\ rows_ok s.
Proof.
  apply (reachable_invariant (fun s => ids_ok s /\ rows_ok s)).
  - split; [apply ids_ok_init|]. split; simpl; [|done].
    intros k (item & Hk & _). by rewrite lookup_empty in Hk.
  - intros a s0 s1 [Hi Hr] Hstep.
    split; eauto using ids_ok_step, rows_ok_step.
Qed.

(** In every reachable state [_flush_logs] handles the whole queue
    without an exception. *)
Lemma flush_no_exception (s : App) :
  reachable s ->
  (_flush_logs s).2 = false /\ event_q (_flush_logs s).1 = [] /\
  handled (_flush_logs s).1 = history s /\
  downloads (_flush_logs s).1 = (drain_dl (event_q s) (downloads s)).1.
Proof.
  intros [_ Hrows]%reachable_rows_ok. unfold _flush_logs.
  set (s1 := mkApp _ _ _ _ _ _ _ _).
  destruct (queue_ok_drain (event_q s) (downloads s) Hrows) as (Hr & _ & _).
  destruct (drain_dl_eq (event_q s1) s1) as [Hdl Hrl].
  change (event_q s1) with (event_q s) in *.
  change (downloads s1) with (downloads s) in *.
  destruct (drain_events_queue (event_q s) s1) as [Hq Hh];
    [congruence|done|].
  repeat split; try done. congruence.
Qed.


Lemma drain_dl_app (q1 q2 : list Event) (m : gmap Z DownloadItem) :
  drain_dl (q1 ++ q2) m
  = if (drain_dl q1 m).2 then drain_dl q1 m
    else drain_dl q2 (drain_dl q1 m).1.
Proof.
  revert m. induction q1 as [|ev q1 IH]; intros m; [done|].
  cbn [app drain_dl]. destruct (dispatch_dl ev m) as [m' [|]]; [done|].
  apply IH.
Qed.

Lemma dispatch_dl_done (i : Z) (filepath : pystr) (m : gmap Z DownloadItem) :
  i ∈ dom m ->
  exists item, (dispatch_dl (EvDone i filepath) m).1 !! i = Some item /\
               it_status item = s_done /\ it_filepath item = filepath.
Proof.
  intros [item Hi]%elem_of_dom. unfold dispatch_dl. simpl.
  unfold _set_download_done. simpl. rewrite Hi. simpl.
  eexists. rewrite lookup_insert_eq. done.
Qed.

Lemma terminal_events_snoc (dlid : Z) (evs : list Event) (ev : Event) :
  terminal_count dlid evs = 0%nat -> event_id ev = dlid ->
  is_terminal ev = true ->
  filter (fun e => is_terminal e = true) (events_of dlid (evs ++ [ev])) = [ev].
Proof.
  unfold terminal_count, events_of. intros H0 Hid Hterm.
  apply nil_length_inv in H0.
  rewrite !filter_app, H0. simpl.
  rewrite filter_cons, filter_nil, decide_True by done.
  rewrite filter_cons, filter_nil, decide_True by done. done.
Qed.


Lemma drain_dl_snoc (q : list Event) (ev : Event) (m : gmap Z DownloadItem) :
  (drain_dl q m).2 = false ->
  (drain_dl (q ++ [ev]) m).1 = (dispatch_dl ev (drain_dl q m).1).1.
Proof.
  intros H. rewrite drain_dl_app, H. cbn [drain_dl].
  by destruct (dispatch_dl ev (drain_dl q m).1) as [m' [|]].
Qed.

(** *** What each job has published *)

Lemma increasing_NoDup (l : list Z) : increasing l -> NoDup l.
Proof.
  induction l as [|x l IH]; simpl; [constructor|].
  intros [Hx Hl]. constructor; [|auto].
  intros Hin. rewrite Forall_forall in Hx. specialize (Hx x Hin). lia.
Qed.

(** Two threads never work on the same job. *)
Lemma thread_of_job (s : App) (t t' : nat) (w w' : Worker) :
  ids_ok s -> threads s !! t = Some w -> threads s !! t' = Some w' ->
  wk_dlid w = wk_dlid w' -> t = t'.
Proof.
  intros Hids Ht Ht' Heq.
  apply (NoDup_lookup (thread_ids s) t t' (wk_dlid w)).
  - apply increasing_NoDup, (ids_increasing s Hids).
  - unfold thread_ids. by rewrite list_lookup_fmap, Ht.
  - unfold thread_ids. by rewrite list_lookup_fmap, Ht', Heq.
Qed.

Lemma events_of_snoc (i : Z) (evs : list Event) (ev : Event) :
  events_of i (evs ++ [ev])
  = events_of i evs ++ (if decide (event_id ev = i) then [ev] else []).
Proof.
  unfold events_of. rewrite filter_app, filter_cons, filter_nil.
  by case_decide.
Qed.

Lemma hooks_of_snoc (t : nat) (tr : list Action) (a : Action) :
  hooks_of t (tr ++ [a])
  = hooks_of t tr
    ++ match a with
       | Hook t' d => if decide (t' = t) then [d] else []
       | _ => []
       end.
Proof.
  induction tr as [|b tr IH]; simpl.
  - destruct a; try done; by case_decide.
  - destruct b; try done; case_decide; try done; by rewrite IH.
Qed.

(** A job has no event before its thread is started. *)
Lemma no_events_yet (s : App) (i : Z) :
  ids_ok s -> _download_counter s <= i -> events_of i (history s) = [].
Proof.
  intros Hids Hle. unfold events_of.
  pose proof (ids_history s Hids) as Hh. pose proof (ids_threads s Hids) as Ht.
  rewrite Forall_forall in Ht.
  induction Hh as [|ev evs Hev _ IH]; [done|].
  rewrite filter_cons. case_decide; [|done].
  destruct (Ht _ Hev). lia.
Qed.

Lemma lookup_set_pc (t t' : nat) (pc : Pc) (s : App) (w : Worker) :
  threads s !! t = Some w ->
  threads (set_pc t pc s) !! t'
  = if decide (t = t') then Some (mkWorker (wk_dlid w) (wk_url w) pc)
    else threads s !! t'.
Proof.
  intros Ht. rewrite (threads_set_pc t pc s w Ht).
  case_decide as Htt; [subst|].
  - apply list_lookup_insert_eq. eapply lookup_lt_Some; eauto.
  - by apply list_lookup_insert_ne.
Qed.

(** The view of a thread that the step did not concern. *)
Lemma job_view_other (tr : list Action) (a : Action) (s s' : App)
    (t : nat) (w : Worker) :
  job_view tr s t w ->
  hooks_of t (tr ++ [a]) = hooks_of t tr ->
  events_of (wk_dlid w) (history s') = events_of (wk_dlid w) (history s) ->
  job_view (tr ++ [a]) s' t w.
Proof.
  intros (mid & term & Hev & Hpre & Hrun & Hex & Hnex) Hh Hevs.
  exists mid, term. unfold hook_events in *. rewrite Hh, Hevs. done.
Qed.

Lemma history_put_log (m : LogMsg) (s : App) :
  history (put_log m s) = history s.
Proof. done. Qed.

(** The view of a thread after one step of its own. *)
Lemma job_view_own (tr : list Action) (s : App) (t : nat) (i : Z)
    (u : pystr) (pc pc' : Pc) (new_hooks : list HookDict)
    (evs : list Event) (hist' : list Event) :
  job_view tr s t (mkWorker i u pc) ->
  events_of i hist' = events_of i (history s) ++ evs ->
  pc <> Exited ->
  (evs = [] /\ pc' <> Exited /\
     (pc' = Running -> pc = Running /\ omap (hook_event i) new_hooks = []) \/
   pc = Running /\ pc' = Running /\ evs = omap (hook_event i) new_hooks \/
   pc' = Exited /\ new_hooks = [] /\
     exists ev, evs = [ev] /\ is_terminal ev = true) ->
  forall tr' s',
    hooks_of t tr' = hooks_of t tr ++ new_hooks ->
    history s' = hist' ->
    job_view tr' s' t (mkWorker i u pc').
Proof.
  intros (mid & term & Hev & Hpre & Hrun & Hex & Hnex) Hevs Hpc Hcase
    tr' s' Hh Hhist.
  simpl in *. specialize (Hnex Hpc). subst term. rewrite app_nil_r in Hev.
  unfold job_view, hook_events in *. simpl. rewrite Hh, omap_app, Hhist, Hevs, Hev.
  destruct Hcase as [(-> & Hpc' & Hr)|[(-> & -> & ->)|(-> & -> & ev & -> & Hterm)]].
  - exists mid, []. rewrite !app_nil_r. repeat split; try done.
    + by apply prefix_app_r.
    + intros Hr'. destruct (Hr Hr') as [-> ->]. rewrite app_nil_r. auto.
  - exists (mid ++ omap (hook_event i) new_hooks), [].
    rewrite !app_nil_r, (Hrun eq_refl). repeat split; try done.
  - exists mid, [ev]. rewrite app_nil_r. repeat split; try done.
    intros _. eauto.
Qed.

Lemma jobs_ok_quiet (tr : list Action) (a : Action) (s s' : App) :
  jobs_ok tr s ->
  (forall t d, a <> Hook t d) ->
  threads s' = threads s -> history s' = history s ->
  jobs_ok (tr ++ [a]) s'.
Proof.
  intros [Hnone Hview] Ha Hth Hh.
  assert (forall t, hooks_of t (tr ++ [a]) = hooks_of t tr) as Hhooks.
  { intros t. rewrite hooks_of_snoc. destruct a; rewrite ?app_nil_r; try done.
    by destruct (Ha t0 d). }
  split.
  - intros t Ht. rewrite Hhooks. apply Hnone. by rewrite <- Hth.
  - intros t w Ht. rewrite Hth in Ht.
    apply (job_view_other tr a s s' t w); auto. by rewrite Hh.
Qed.

(** A step of thread [t0], which works on job [i] and publishes [evs]. *)
Lemma jobs_ok_thread (tr : list Action) (a : Action) (s s1 : App)
    (t0 : nat) (i : Z) (u : pystr) (pc pc' : Pc) (evs : list Event) :
  ids_ok s -> jobs_ok tr s ->
  threads s !! t0 = Some (mkWorker i u pc) ->
  threads s1 = threads s -> history s1 = history s ++ evs ->
  Forall (fun ev => event_id ev = i) evs ->
  pc <> Exited ->
  let new_hooks := match a with
                   | Hook t' d => if decide (t' = t0) then [d] else []
                   | _ => []
                   end in
  (forall t, t <> t0 -> hooks_of t (tr ++ [a]) = hooks_of t tr) ->
  (evs = [] /\ pc' <> Exited /\
     (pc' = Running -> pc = Running /\ omap (hook_event i) new_hooks = []) \/
   pc = Running /\ pc' = Running /\ evs = omap (hook_event i) new_hooks \/
   pc' = Exited /\ new_hooks = [] /\
     exists ev, evs = [ev] /\ is_terminal ev = true) ->
  jobs_ok (tr ++ [a]) (set_pc t0 pc' s1).
Proof.
  intros Hids [Hnone Hview] Ht0 Hth Hh Hevs Hpc new_hooks Hother Hcase.
  assert (threads s1 !! t0 = Some (mkWorker i u pc)) as Ht1 by (by rewrite Hth).
  split.
  - intros t Ht. rewrite (lookup_set_pc t0 t pc' s1 _ Ht1) in Ht.
    case_decide; [done|]. rewrite Hother by done. apply Hnone.
    by rewrite <- Hth.
  - intros t w Ht. rewrite (lookup_set_pc t0 t pc' s1 _ Ht1) in Ht.
    case_decide as Htt.
    + subst t. inversion Ht; subst; clear Ht. simpl.
      apply (job_view_own tr s t0 i u pc pc' new_hooks evs
               (history s ++ evs)); auto;
        try (by rewrite history_set_pc).
      * unfold events_of. rewrite filter_app. f_equal.
        clear -Hevs. induction Hevs as [|ev evs Hev _ IH]; [done|].
        rewrite filter_cons, decide_True by done. by rewrite IH.
      * rewrite hooks_of_snoc. done.
    + rewrite Hth in Ht.
      apply (job_view_other tr a s _ t w); auto.
      rewrite history_set_pc, Hh. unfold events_of. rewrite filter_app.
      assert (wk_dlid w <> i) as Hne.
      { intros Heq. apply Htt. symmetry.
        eapply (thread_of_job s t t0); eauto. }
      assert (filter (fun ev => event_id ev = wk_dlid w) evs = []) as ->.
      { clear -Hevs Hne. induction Hevs as [|ev evs Hev _ IH]; [done|].
        rewrite filter_cons, decide_False by congruence. done. }
      by rewrite app_nil_r.
Qed.

Lemma hooks_of_snoc_other (t t0 : nat) (tr : list Action) (a : Action) :
  (forall d, a <> Hook t d) -> hooks_of t (tr ++ [a]) = hooks_of t tr.
Proof.
  intros Ha. rewrite hooks_of_snoc. destruct a; rewrite ?app_nil_r; try done.
  case_decide; [subst; by destruct (Ha d)|by rewrite app_nil_r].
Qed.

Lemma set_pc_same (t : nat) (i : Z) (u : pystr) (pc : Pc) (s : App) :
  threads s !! t = Some (mkWorker i u pc) -> set_pc t pc s = s.
Proof.
  intros Ht. unfold set_pc, with_threads. rewrite Ht. simpl.
  rewrite list_insert_id by done. by destruct s.
Qed.

(** A notification delivered to the running thread [t]. *)
Lemma jobs_ok_hook (tr : list Action) (s s1 : App) (t : nat) (i : Z)
    (u : pystr) (d : HookDict) (pc' : Pc) (evs : list Event) :
  ids_ok s -> jobs_ok tr s ->
  threads s !! t = Some (mkWorker i u Running) ->
  threads s1 = threads s -> history s1 = history s ++ evs ->
  Forall (fun ev => event_id ev = i) evs ->
  (evs = [] /\ pc' <> Exited /\ (pc' = Running -> hook_event i d = None) \/
   pc' = Running /\ exists ev, hook_event i d = Some ev /\ evs = [ev]) ->
  jobs_ok (tr ++ [Hook t d]) (set_pc t pc' s1).
Proof.
  intros Hids Hjobs Ht Hth Hh Hevs Hcase.
  apply (jobs_ok_thread tr (Hook t d) s s1 t i u Running pc' evs); auto.
  - intros t' Hne. rewrite hooks_of_snoc, decide_False by done.
    by rewrite app_nil_r.
  - rewrite decide_True by done. simpl.
    destruct Hcase as [(-> & Hpc & Hr)|(-> & ev & Hev & ->)].
    + left. repeat split; auto. by rewrite (Hr H).
    + right. left. by rewrite Hev.
Qed.

Lemma jobs_ok_step (tr : list Action) (a : Action) (s s' : App) :
  ids_ok s -> jobs_ok tr s -> step a s = Some s' -> jobs_ok (tr ++ [a]) s'.
Proof.
  intros Hids Hjobs Hstep.
  destruct a as [url|k| |t d|t path|t msg|t]; simpl in Hstep.
  - (* Submit *)
    inversion Hstep; subst; clear Hstep. unfold start_download.
    destruct (PyStr.truthy (strip url)) eqn:Hurl; cbn [negb].
    2:{ apply (jobs_ok_quiet tr _ s); try done. }
    destruct Hjobs as [Hnone Hview]. set (c := _download_counter s).
    set (s' := mkApp _ _ _ _ _ _ _ _).
    assert (history s' = history s ++ [EvAdd c s_preparing]) as Hh
      by (unfold history; simpl; by rewrite app_assoc).
    assert (forall t, hooks_of t (tr ++ [Submit url]) = hooks_of t tr)
      as Hhooks by (intros t; by rewrite hooks_of_snoc, app_nil_r).
    split.
    + intros t Ht. rewrite Hhooks. apply Hnone. simpl in Ht.
      apply lookup_ge_None in Ht. rewrite length_app in Ht. simpl in Ht.
      apply lookup_ge_None. lia.
    + intros t w Ht. simpl in Ht.
      destruct (decide (t < length (threads s))%nat) as [Hlt|Hge].
      * rewrite lookup_app_l in Ht by done.
        apply (job_view_other tr _ s s' t w); auto.
        rewrite Hh, events_of_snoc, decide_False, app_nil_r; [done|].
        simpl. pose proof (thread_id_elem t w s Ht) as Hin.
        pose proof (ids_threads s Hids) as Hall.
        rewrite Forall_forall in Hall. destruct (Hall _ Hin). unfold c. lia.
      * rewrite lookup_app_r in Ht by lia.
        destruct (t - length (threads s))%nat eqn:Hd; [|by destruct n].
        inversion Ht; subst; clear Ht. exists [], []. simpl.
        rewrite Hh, events_of_snoc, decide_True by done.
        rewrite (no_events_yet s c Hids) by (unfold c; lia).
        unfold hook_events. rewrite Hhooks, Hnone.
        2:{ apply lookup_ge_None. lia. }
        repeat split; try done.
  - (* Stop *)
    inversion Hstep; subst; clear Hstep.
    apply (jobs_ok_quiet tr _ s); try done;
      (destruct (stop_btn_click_cases k s) as [-> | ->]; [done|]);
      unfold _stop_download; by destruct (downloads s !! k).
  - (* Flush *)
    inversion Hstep; subst; clear Hstep.
    apply (jobs_ok_quiet tr _ s); try done;
      auto using flush_threads, flush_history.
  - (* Hook *)
    destruct (threads s !! t) as [[i u [| |]]|] eqn:Ht; try done.
    pose proof (fun s1 pc' evs =>
                  jobs_ok_hook tr s s1 t i u d pc' evs Hids Hjobs Ht)
      as Hthread.
    unfold progress_hook in Hstep. unfold hook_event in Hthread.
    destruct (decide (get (d_status d) = VStr s_downloading)).
    + destruct (hook_percent d) as [perc|m].
      2:{ inversion Hstep; subst; clear Hstep.
          apply (Hthread s (Raised m) []); auto using app_nil_r. }
      destruct (cancel_is_set i s).
      * inversion Hstep; subst; clear Hstep.
        apply (Hthread s (Raised s_user_cancelled) []);
          auto using app_nil_r.
        left. repeat split; done.
      * inversion Hstep; subst; clear Hstep.
        match goal with |- jobs_ok _ ?x =>
          rewrite <- (set_pc_same t i u Running x) by done end.
        eapply (Hthread _ Running [_]); try done.
        -- rewrite history_put_log. apply history_put_event.
        -- by apply Forall_singleton.
        -- right. eauto.
    + destruct (decide (get (d_status d) = VStr s_finished)).
      * inversion Hstep; subst; clear Hstep.
        match goal with |- jobs_ok _ ?x =>
          rewrite <- (set_pc_same t i u Running x) by done end.
        eapply (Hthread _ Running [_]); try done.
        -- apply history_put_event.
        -- by apply Forall_singleton.
        -- right. eauto.
      * inversion Hstep; subst; clear Hstep.
        rewrite <- (set_pc_same t i u Running s') by done.
        apply (Hthread s' Running []); auto using app_nil_r.
  - (* FetchReturns *)
    destruct (threads s !! t) as [[i u [| |]]|] eqn:Ht; try done.
    inversion Hstep; subst; clear Hstep.
    apply (jobs_ok_thread tr _ s (worker_success i path s) t i u Running
             Exited [EvDone i path] Hids Hjobs Ht eq_refl).
    + unfold worker_success. rewrite history_put_log.
      apply history_put_event.
    + by apply Forall_singleton.
    + done.
    + intros t' _. by rewrite hooks_of_snoc, app_nil_r.
    + right. right. repeat split; eauto.
  - (* FetchRaises *)
    destruct (threads s !! t) as [[i u [| |]]|] eqn:Ht; try done.
    inversion Hstep; subst; clear Hstep.
    apply (jobs_ok_thread tr _ s s t i u Running (Raised msg) []
             Hids Hjobs Ht eq_refl).
    + by rewrite app_nil_r.
    + done.
    + done.
    + intros t' _. by rewrite hooks_of_snoc, app_nil_r.
    + left. repeat split; done.
  - (* Handle *)
    destruct (threads s !! t) as [[i u [|msg|]]|] eqn:Ht; try done.
    inversion Hstep; subst; clear Hstep.
    pose proof (worker_except_frame i msg s) as (Hth & _ & _ & text & Hh).
    assert (is_terminal (EvStatus i text) = true) as Hterm.
    { revert Hh. unfold worker_except.
      destruct (contains s_user_cancelled msg || cancel_is_set i s);
        rewrite history_put_log, history_put_event;
        intros [= <-]%app_inv_head; [done|apply error_status_terminal]. }
    apply (jobs_ok_thread tr _ s _ t i u (Raised msg) Exited
             [EvStatus i text] Hids Hjobs Ht Hth Hh).
    + by apply Forall_singleton.
    + done.
    + intros t' _. by rewrite hooks_of_snoc, app_nil_r.
    + right. right. repeat split; eauto.
Qed.

Lemma jobs_ok_run (tr : list Action) (s : App) :
  run tr init = Some s -> jobs_ok tr s.
Proof.
  revert s. induction tr as [|a tr IH] using rev_ind; intros s Hrun.
  - inversion Hrun; subst. split; [done|]. intros t w Ht. done.
  - rewrite run_app in Hrun.
    destruct (run tr init) as [s0|] eqn:H0; [|done]. simpl in Hrun.
    destruct (step a s0) as [s1|] eqn:Hstep; [|done].
    inversion Hrun; subst; clear Hrun.
    eapply jobs_ok_step; eauto. apply reachable_ids_ok. by exists tr.
Qed.

(** *** What a step of a worker publishes *)

Lemma history_stop_btn_click (k : Z) (s : App) :
  history (stop_btn_click k s) = history s.
Proof.
  destruct (stop_btn_click_cases k s) as [-> | ->]; [done|].
  unfold _stop_download. by destruct (downloads s !! k).
Qed.

(** The hook of a worker writes the two queues only, and puts at most
    one event, of its own job; a progress event only when the
    cancellation event of the job is clear. *)
Lemma progress_hook_frame (dlid : Z) (d : HookDict) (s : App) :
  let r := progress_hook dlid d s in
  threads r.1 = threads s /\ _download_counter r.1 = _download_counter s /\
  downloads r.1 = downloads s /\ handled r.1 = handled s /\
  log_text r.1 = log_text s /\ dialogs r.1 = dialogs s /\
  exists evs, event_q r.1 = event_q s ++ evs /\ (length evs <= 1)%nat /\
              Forall (fun ev => event_id ev = dlid /\ is_terminal ev = false
                                /\ status_event_ok ev) evs /\
              (forall k, cancel_is_set k s = true ->
                         progress_percents k evs = []).
Proof.
  unfold progress_hook.
  destruct (decide (get (d_status d) = VStr s_downloading)).
  - destruct (hook_percent d) as [perc|msg]; cbn [fst snd].
    2:{ split_and!; try done. exists []. rewrite app_nil_r.
        split_and!; auto. }
    destruct (cancel_is_set dlid s) eqn:Hc; cbn [fst snd].
    + split_and!; try done. exists []. rewrite app_nil_r.
      split_and!; auto.
    + split_and!; try done. eexists [_]. split; [done|].
      split; [simpl; lia|]. split; [by apply Forall_singleton|].
      intros k Hk. unfold progress_percents. simpl.
      case_decide; [|done]. subst. congruence.
  - destruct (decide (get (d_status d) = VStr s_finished)); cbn [fst snd].
    + split_and!; try done. eexists [_]. split; [done|].
      split; [simpl; lia|]. split; [by apply Forall_singleton|]. done.
    + split_and!; try done. exists []. rewrite app_nil_r.
      split_and!; auto.
Qed.

Lemma terminal_events_snoc_ev (k : Z) (evs : list Event) (ev : Event) :
  terminal_events k (evs ++ [ev])
  = terminal_events k evs
    ++ (if decide (event_id ev = k)
        then if is_terminal ev then [ev] else []
        else []).
Proof.
  unfold terminal_events. rewrite events_of_snoc, filter_app.
  case_decide; [|by rewrite filter_nil].
  rewrite filter_cons, filter_nil.
  destruct (is_terminal ev) eqn:E; by case_decide.
Qed.

Lemma terminal_events_other (k : Z) (evs : list Event) (ev : Event) :
  event_id ev <> k \/ is_terminal ev = false ->
  terminal_events k (evs ++ [ev]) = terminal_events k evs.
Proof.
  intros H. rewrite terminal_events_snoc_ev.
  case_decide; [|by rewrite app_nil_r].
  destruct H as [H|H]; [done|]. by rewrite H, app_nil_r.
Qed.

Lemma cancelled_status_terminal (dlid : Z) :
  is_terminal (EvStatus dlid s_cancelled) = true.
Proof. reflexivity. Qed.

(** Every step adds to the terminal events of a job what the
    specification expects from it, and nothing else. *)
Lemma step_terminal_events (a : Action) (s s' : App) (t : nat) (w : Worker) :
  ids_ok s -> threads s !! t = Some w -> step a s = Some s' ->
  terminal_events (wk_dlid w) (history s')
  = terminal_events (wk_dlid w) (history s) ++ expected_terminal a s t w.
Proof.
  intros Hids Ht Hstep.
  destruct a as [url|k| |t' d|t' path|t' msg|t']; cbn [step] in Hstep;
    cbn [expected_terminal].
  - inversion Hstep; subst; clear Hstep. unfold start_download.
    destruct (PyStr.truthy (strip url)); cbn [negb];
      [|by rewrite app_nil_r].
    set (s1 := mkApp _ _ _ _ _ _ _ _).
    assert (history s1
            = history s ++ [EvAdd (_download_counter s) s_preparing]) as ->
      by (unfold history; simpl; by rewrite app_assoc).
    rewrite terminal_events_other by (by right). by rewrite app_nil_r.
  - inversion Hstep; subst; clear Hstep.
    by rewrite history_stop_btn_click, app_nil_r.
  - inversion Hstep; subst; clear Hstep.
    by rewrite flush_history, app_nil_r.
  - destruct (threads s !! t') as [[i u [| |]]|] eqn:Ht'; try done.
    pose proof (progress_hook_history i d s) as (_ & _ & _ & Hh).
    rewrite app_nil_r.
    destruct (progress_hook i d s) as [s1 [m|]]; cbn [fst snd] in Hh;
      inversion Hstep; subst; clear Hstep; rewrite ?history_set_pc;
      (destruct Hh as [->|[_ [(perc & _ & ->)| ->]]]; [done|..]);
      by rewrite terminal_events_other by (by right).
  - destruct (threads s !! t') as [[i u [| |]]|] eqn:Ht'; try done.
    inversion Hstep; subst; clear Hstep.
    rewrite history_set_pc. unfold worker_success.
    rewrite history_put_log, history_put_event, terminal_events_snoc_ev.
    cbn [event_id is_terminal].
    destruct (decide (t' = t)) as [->|Hne].
    + rewrite Ht in Ht'. inversion Ht'; subst; clear Ht'. cbn [wk_dlid].
      by rewrite decide_True.
    + rewrite decide_False; [done|]. intros Heq. apply Hne.
      by apply (thread_of_job s t' t _ w Hids Ht' Ht).
  - destruct (threads s !! t') as [[i u [| |]]|] eqn:Ht'; try done.
    inversion Hstep; subst; clear Hstep.
    by rewrite history_set_pc, app_nil_r.
  - destruct (threads s !! t') as [[i u [|m|]]|] eqn:Ht'; try done.
    inversion Hstep; subst; clear Hstep.
    rewrite history_set_pc. unfold worker_except.
    destruct (decide (t' = t)) as [->|Hne].
    + rewrite Ht in Ht'. inversion Ht'; subst; clear Ht'.
      cbn [wk_dlid wk_pc].
      destruct (contains s_user_cancelled m || cancel_is_set i s);
        rewrite history_put_log, history_put_event, terminal_events_snoc_ev;
        cbn [event_id]; rewrite decide_True by done.
      * by rewrite cancelled_status_terminal.
      * by rewrite error_status_terminal.
    + assert (i <> wk_dlid w) as Hi.
      { intros Heq. apply Hne.
        by apply (thread_of_job s t' t _ w Hids Ht' Ht). }
      destruct (contains s_user_cancelled m || cancel_is_set i s);
        rewrite history_put_log, history_put_event,
          terminal_events_other by (by left);
        by rewrite app_nil_r.
Qed.

(** *** First in, first out *)

(** The second loop of [_flush_logs] takes events from the head of the
    queue and hands them to the handlers in that order. *)
Lemma drain_events_fifo (q : list Event) (s : App) :
  event_q s = q ->
  exists n : nat,
    handled (drain_events q s).1 = handled s ++ take n q /\
    event_q (drain_events q s).1 = drop n q.
Proof.
  revert s. induction q as [|ev q IH]; intros s Hq.
  - exists 0%nat. simpl. by rewrite app_nil_r.
  - cbn [drain_events].
    pose proof (dispatch_frame ev (take_event ev q s)) as (_ & Hq' & Hh' & _).
    destruct (dispatch ev (take_event ev q s)) as [s1 [|]];
      cbn [fst snd] in *.
    + exists 1%nat. by rewrite Hq', Hh'.
    + destruct (IH s1 Hq') as (n & Hh & Hqq). exists (S n).
      rewrite Hh, Hqq, Hh'. cbn [take_event handled take drop].
      by rewrite <- app_assoc.
Qed.

Lemma worker_except_queue (i : Z) (msg : pystr) (s : App) :
  exists text,
    event_q (worker_except i msg s) = event_q s ++ [EvStatus i text] /\
    handled (worker_except i msg s) = handled s /\
    downloads (worker_except i msg s) = downloads s /\
    text <> s_done.
Proof.
  unfold worker_except.
  destruct (contains s_user_cancelled msg || cancel_is_set i s);
    eexists; (split; [reflexivity|]); (split; [reflexivity|]);
    (split; [reflexivity|]); discriminate.
Qed.

(** Every step takes events from the head of the queue only, hands them
    to the handlers in the order of the queue, and puts new events at
    its end. *)
Lemma step_fifo (a : Action) (s s' : App) :
  step a s = Some s' ->
  exists (n : nat) (new : list Event),
    handled s' = handled s ++ take n (event_q s) /\
    event_q s' = drop n (event_q s) ++ new.
Proof.
  intros Hstep.
  destruct a as [url|k| |t d|t path|t msg|t]; cbn [step] in Hstep.
  - inversion Hstep; subst; clear Hstep. unfold start_download.
    destruct (PyStr.truthy (strip url)).
    + exists 0%nat. eexists [_]. cbn. by rewrite app_nil_r.
    + exists 0%nat, []. cbn. by rewrite !app_nil_r.
  - inversion Hstep; subst; clear Hstep. exists 0%nat, [].
    cbn [take drop]. rewrite !app_nil_r.
    destruct (stop_btn_click_cases k s) as [-> | ->]; [done|].
    unfold _stop_download. by destruct (downloads s !! k).
  - inversion Hstep; subst; clear Hstep. unfold _flush_logs.
    set (s1 := mkApp _ _ _ _ _ _ _ _).
    destruct (drain_events_fifo (event_q s1) s1 eq_refl) as (n & Hh & Hq).
    exists n, []. by rewrite app_nil_r.
  - destruct (threads s !! t) as [[i u [| |]]|] eqn:Ht; try done.
    pose proof (progress_hook_frame i d s)
      as (_ & _ & _ & Hh & _ & _ & evs & Hq & _).
    exists 0%nat, evs. cbn [take drop]. rewrite app_nil_r.
    destruct (progress_hook i d s) as [s1 [m|]]; cbn [fst snd] in *;
      inversion Hstep; subst; clear Hstep; done.
  - destruct (threads s !! t) as [[i u [| |]]|] eqn:Ht; try done.
    inversion Hstep; subst; clear Hstep.
    exists 0%nat. eexists [_]. cbn. by rewrite app_nil_r.
  - destruct (threads s !! t) as [[i u [| |]]|] eqn:Ht; try done.
    inversion Hstep; subst; clear Hstep.
    exists 0%nat, []. cbn. by rewrite !app_nil_r.
  - destruct (threads s !! t) as [[i u [|m|]]|] eqn:Ht; try done.
    inversion Hstep; subst; clear Hstep.
    destruct (worker_except_queue i m s) as (text & Hq & Hh & _).
    exists 0%nat. eexists [_]. cbn [take drop]. rewrite app_nil_r.
    split; [exact Hh|exact Hq].
Qed.

(** *** Stop buttons *)

Lemma starts_with_contains (p s : pystr) :
  starts_with p s = true -> contains p s = true.
Proof. intros H. destruct s; simpl; by rewrite H. Qed.

Lemma starts_with_app_l (p q s : pystr) :
  starts_with (p ++ q) s = true -> starts_with p s = true.
Proof.
  revert s. induction p as [|a p IH]; intros s; simpl; [done|].
  destruct s as [|b s]; [done|]. destruct (N.eqb a b); [apply IH|done].
Qed.

(** A terminal status carries one of the words [_set_download_status]
    looks for. *)
Lemma terminal_status_final (i : Z) (text : pystr) :
  is_terminal (EvStatus i text) = true ->
  contains s_cancelled text || contains s_error_word text
  || contains s_fail_word text = true.
Proof.
  cbn [is_terminal]. intros [Hc|He]%orb_true_iff.
  - apply bool_decide_eq_true in Hc. subst. vm_compute. reflexivity.
  - unfold s_error_prefix in He.
    apply starts_with_app_l, starts_with_contains in He.
    by rewrite He, orb_true_r.
Qed.

Lemma terminal_status_event (i : Z) (text : pystr) :
  terminal_status text = true -> text <> s_done ->
  is_terminal (EvStatus i text) = true.
Proof.
  unfold terminal_status. cbn [is_terminal]. intros H Hne.
  rewrite (bool_decide_eq_false_2 (text = s_done)) in H by done. done.
Qed.

Lemma buttons_ok_dispatch (ev : Event) (s : App) :
  status_event_ok ev -> buttons_ok (downloads s) ->
  buttons_ok (downloads (dispatch ev s).1).
Proof.
  intros Hev Hb.
  destruct ev as [i tt|i p sp e|i text|i fp]; cbn [dispatch];
    unfold _add_download_row, _update_download_row, _set_download_status,
      _set_download_done;
    destruct (downloads s !! i) as [item|] eqn:Hi; cbn [fst]; try done.
  - intros k item' w' Hk Hw Hterm. cbn in Hk.
    destruct (decide (i = k)) as [->|Hne].
    + rewrite lookup_insert_eq in Hk. inversion Hk; subst; clear Hk.
      by vm_compute in Hterm.
    + rewrite lookup_insert_ne in Hk by done. eauto.
  - destruct (it_widgets item) as [w|] eqn:Hwi; cbn [fst];
      intros k item' w' Hk Hw Hterm; cbn in Hk;
      (destruct (decide (i = k)) as [->|Hne];
       [rewrite lookup_insert_eq in Hk; inversion Hk; subst; clear Hk
       |rewrite lookup_insert_ne in Hk by done; eauto]).
    + cbn in Hw, Hterm. inversion Hw; subst; clear Hw. cbn. eauto.
    + done.
  - intros k item' w' Hk Hw Hterm. cbn in Hk.
    destruct (decide (i = k)) as [->|Hne].
    + rewrite lookup_insert_eq in Hk. inversion Hk; subst; clear Hk.
      cbn [it_status it_widgets] in Hw, Hterm.
      destruct (it_widgets item) as [w|]; [|done].
      inversion Hw; subst; clear Hw. cbn [w_stop_btn].
      by rewrite (terminal_status_final k text
                    (terminal_status_event k text Hterm Hev)).
    + rewrite lookup_insert_ne in Hk by done. eauto.
  - intros k item' w' Hk Hw Hterm. cbn in Hk.
    destruct (decide (i = k)) as [->|Hne].
    + rewrite lookup_insert_eq in Hk. inversion Hk; subst; clear Hk.
      cbn [it_widgets] in Hw. destruct (it_widgets item) as [w|]; [|done].
      by inversion Hw; subst.
    + rewrite lookup_insert_ne in Hk by done. eauto.
Qed.

Lemma buttons_ok_drain (q : list Event) (s : App) :
  Forall status_event_ok q -> buttons_ok (downloads s) ->
  buttons_ok (downloads (drain_events q s).1).
Proof.
  intros Hq. revert s. induction Hq as [|ev q Hev Hq IH]; intros s Hb; [done|].
  cbn [drain_events].
  pose proof (buttons_ok_dispatch ev (take_event ev q s) Hev Hb) as H1.
  destruct (dispatch ev (take_event ev q s)) as [s1 [|]]; cbn [fst] in *;
    auto.
Qed.

Lemma buttons_ok_stop (k : Z) (s : App) :
  buttons_ok (downloads s) -> buttons_ok (downloads (_stop_download k s)).
Proof.
  intros Hb. unfold _stop_download.
  destruct (downloads s !! k) as [item|] eqn:Hk; [|done].
  intros j item' w' Hj Hw Hterm. cbn in Hj.
  destruct (decide (k = j)) as [->|Hne].
  - rewrite lookup_insert_eq in Hj. inversion Hj; subst; clear Hj.
    cbn [it_widgets] in Hw. destruct (it_widgets item) as [w|]; [|done].
    by inversion Hw; subst.
  - rewrite lookup_insert_ne in Hj by done. eauto.
Qed.

Lemma stop_ok_step (a : Action) (s s' : App) :
  stop_ok s -> step a s = Some s' -> stop_ok s'.
Proof.
  intros [Hq Hb] Hstep.
  destruct a as [url|k| |t d|t path|t msg|t]; cbn [step] in Hstep.
  - inversion Hstep; subst; clear Hstep. unfold start_download.
    destruct (PyStr.truthy (strip url)); [|done]. split; cbn.
    + apply Forall_app. split; [done|]. by apply Forall_singleton.
    + intros k item w Hk Hw Hterm.
      destruct (decide (_download_counter s = k)) as [<-|Hne].
      * rewrite lookup_insert_eq in Hk. by inversion Hk; subst.
      * rewrite lookup_insert_ne in Hk by done. eauto.
  - inversion Hstep; subst; clear Hstep.
    destruct (stop_btn_click_cases k s) as [-> | ->]; [done|].
    split; [|by apply buttons_ok_stop].
    unfold _stop_download. by destruct (downloads s !! k).
  - inversion Hstep; subst; clear Hstep. unfold _flush_logs.
    set (s1 := mkApp _ _ _ _ _ _ _ _).
    destruct (drain_events_fifo (event_q s1) s1 eq_refl) as (n & _ & Hqq).
    split.
    + rewrite Hqq. by apply Forall_drop.
    + by apply buttons_ok_drain.
  - destruct (threads s !! t) as [[i u [| |]]|] eqn:Ht; try done.
    pose proof (progress_hook_frame i d s)
      as (_ & _ & Hd & _ & _ & _ & evs & Hqq & _ & Hevs & _).
    assert (stop_ok (progress_hook i d s).1) as H1.
    { split; [|by rewrite Hd]. rewrite Hqq. apply Forall_app.
      split; [done|]. eapply Forall_impl; [exact Hevs|].
      by intros ev (_ & _ & Hev). }
    destruct (progress_hook i d s) as [s1 [m|]]; cbn [fst snd] in *;
      inversion Hstep; subst; clear Hstep; done.
  - destruct (threads s !! t) as [[i u [| |]]|] eqn:Ht; try done.
    inversion Hstep; subst; clear Hstep. split; [|done]. cbn.
    apply Forall_app. split; [done|]. by apply Forall_singleton.
  - destruct (threads s !! t) as [[i u [| |]]|] eqn:Ht; try done.
    inversion Hstep; subst; clear Hstep. done.
  - destruct (threads s !! t) as [[i u [|m|]]|] eqn:Ht; try done.
    inversion Hstep; subst; clear Hstep.
    destruct (worker_except_queue i m s) as (text & Hqq & _ & Hd & Hne).
    split.
    + change (event_q (set_pc t Exited ?x)) with (event_q x).
      rewrite Hqq. apply Forall_app. split; [done|].
      by apply Forall_singleton.
    + change (downloads (set_pc t Exited ?x)) with (downloads x).
      by rewrite Hd.
Qed.

Lemma reachable_stop_ok (s : App) : reachable s -> stop_ok s.
Proof.
  apply reachable_invariant; [|eauto using stop_ok_step].
  split; [constructor|]. intros k item w Hk. cbn in Hk.
  by rewrite lookup_empty in Hk.
Qed.

(** *** The percentage at the two ends of a transfer *)




(** *** The timer of the URL entry *)





(** ** The claims *)

Import Scenario.

(** C1. Every job started gets exactly one terminal event from its
    worker.  In every state an interleaving of the user interface and the
    workers can reach, the events published for the job of a thread hold
    one terminal event when the thread has left the [try] statement and
    none before, whatever stop requests came in between.  A step adds a
    terminal event to the job exactly as follows: [done] with the file
    path when the fetch of the thread returns; from the error handler of
    the thread the cancelled status for a cancellation and otherwise the
    failed status with the text of the exception; nothing at any other
    step.  And the thread can always get to its terminal event. *)
Theorem C1_exactly_one_terminal_event (s : App) (t : nat) (w : Worker) :
  reachable s -> threads s !! t = Some w ->
  terminal_count (wk_dlid w) (history s)
  = (if decide (wk_pc w = Exited) then 1%nat else 0%nat) /\
  (forall a s', step a s = Some s' ->
     terminal_events (wk_dlid w) (history s')
     = terminal_events (wk_dlid w) (history s)
       ++ expected_terminal a s t w) /\
  exists tr s', run tr s = Some s' /\
                terminal_count (wk_dlid w) (history s') = 1%nat.
Proof.
  intros Hs Ht. split; [eauto using terminal_count_thread|]. split.
  { intros a s' Hstep.
    apply step_terminal_events; auto using reachable_ids_ok. }
  destruct (worker_can_exit s t w Ht) as (tr & s' & w' & Hrun & Ht' & Hpc & Hid).
  exists tr, s'. split; [done|].
  rewrite <- Hid, (terminal_count_thread s' t w') by eauto using reachable_run.
  by rewrite decide_True.
Qed.

Lemma C1_exactly_one_terminal_event_witness :
  terminal_count 1 (history (state_of late_cancel))
  = (if decide (Running = Exited) then 1%nat else 0%nat) /\
  (forall a s', step a (state_of late_cancel) = Some s' ->
     terminal_events 1 (history s')
     = terminal_events 1 (history (state_of late_cancel))
       ++ expected_terminal a (state_of late_cancel) 0
            (mkWorker 1 url1 Running)) /\
  exists tr s', run tr (state_of late_cancel) = Some s' /\
                terminal_count 1 (history s') = 1%nat.
Proof.
  apply (C1_exactly_one_terminal_event (state_of late_cancel) 0
           (mkWorker 1 url1 Running)).
  - exists late_cancel. vm_compute. reflexivity.
  - vm_compute. reflexivity.
Defined.

(** The three ways of a job to its terminal event. *)
Example terminal_events_by_cause :
  terminal_events 1 (history (state_of (late_cancel ++ [FetchReturns 0 path1])))
  = [EvDone 1 path1] /\
  terminal_events 1 (history (state_of (failing_job ++ [Handle 0])))
  = [EvStatus 1 (s_error_prefix ++ timeout_msg)] /\
  terminal_events 1
    (history (state_of (stopped_job ++ [FetchRaises 0 timeout_msg; Handle 0])))
  = [EvStatus 1 s_cancelled].
Proof. repeat apply conj; vm_compute; reflexivity. Qed.


(** C2. A stop request that arrives after the last progress notification
    does not undo a finished transfer: when the fetch returns a file path
    while the cancellation event of the job is set, the worker publishes
    [done] with that path as the only terminal event of the job, and the
    next flush marks the item [done] with the path. *)
Theorem C2_completion_beats_late_cancel (s : App) (t : nat) (dlid : Z)
    (url filepath : pystr) :
  reachable s ->
  threads s !! t = Some (mkWorker dlid url Running) ->
  cancel_is_set dlid s = true ->
  exists s1 item,
    step (FetchReturns t filepath) s = Some s1 /\
    filter (fun e => is_terminal e = true) (events_of dlid (history s1))
    = [EvDone dlid filepath] /\
    (_flush_logs s1).2 = false /\
    downloads (_flush_logs s1).1 !! dlid = Some item /\
    it_status item = s_done /\ it_filepath item = filepath.
Proof.
  intros Hs Ht Hc.
  assert (step (FetchReturns t filepath) s
          = Some (set_pc t Exited (worker_success dlid filepath s))) as Hstep.
  { simpl. by rewrite Ht. }
  set (s1 := set_pc t Exited (worker_success dlid filepath s)) in *.
  assert (reachable s1) as Hs1.
  { apply (reachable_run [FetchReturns t filepath] s); [done|].
    cbn [run]. by rewrite Hstep. }
  destruct (reachable_rows_ok s Hs) as [Hids Hrows].
  pose proof (thread_has_item s t _ Hids Ht) as Hdom. simpl in Hdom.
  destruct (flush_no_exception s1 Hs1) as (Hr & _ & _ & Hdl).
  assert (event_q s1 = event_q s ++ [EvDone dlid filepath]) as Hq by done.
  assert (downloads s1 = downloads s) as Hd by done.
  destruct (queue_ok_drain _ _ Hrows) as (Hr0 & Hdom0 & _).
  rewrite Hq, Hd, drain_dl_snoc in Hdl by done.
  destruct (dispatch_dl_done dlid filepath (drain_dl (event_q s) (downloads s)).1)
    as (item & Hitem & Hst & Hfp); [by rewrite Hdom0|].
  exists s1, item. split; [done|]. split.
  - change (history s1) with (history (put_event (EvDone dlid filepath) s)).
    rewrite history_put_event. apply terminal_events_snoc; try done.
    apply (terminal_count_thread s t _ Hs Ht).
  - rewrite Hdl. done.
Qed.


Lemma C2_completion_beats_late_cancel_witness :
  exists s1 item,
    step (FetchReturns 0 path1) (state_of late_cancel) = Some s1 /\
    filter (fun e => is_terminal e = true) (events_of 1 (history s1))
    = [EvDone 1 path1] /\
    (_flush_logs s1).2 = false /\
    downloads (_flush_logs s1).1 !! 1 = Some item /\
    it_status item = s_done /\ it_filepath item = path1.
Proof.
  apply (C2_completion_beats_late_cancel (state_of late_cancel) 0 1 url1 path1).
  - exists late_cancel. vm_compute. reflexivity.
  - vm_compute. reflexivity.
  - vm_compute. reflexivity.
Defined.


(** Binary64 truncation is not the exact floor: 29 bytes of 100 are
    published as 28 percent. *)
Example percent_of_29_100 :
  percent_of (VInt 29) (VInt 100) = inl 28 /\ spec_percent 29 100 = 29.
Proof. split; vm_compute; reflexivity. Qed.

Example percent_of_scenario :
  percent_of (VInt 400) (VInt 1000) = inl 40 /\
  percent_of (VInt 1000) (VInt 1000) = inl 100.
Proof. split; vm_compute; reflexivity. Qed.

(** Byte counts that are no integers: a float estimate of the total, a
    key that holds [None], a count too large for a float. *)
Example percent_of_values :
  hook_percent (mkHookDict (Some (VStr s_downloading)) None
                  (Some (VFloat (S754_finite false 4503599627370496 (-42))))
                  (Some (VInt 256)) None None None None) = inl 25 /\
  hook_percent (mkHookDict (Some (VStr s_downloading)) (Some (VInt 1000))
                  None (Some VNone) None None None None)
  = inr (lit "unsupported operand type(s) for /: 'NoneType' and 'int'") /\
  hook_percent (tick (2 ^ 1100) (Some 1) None)
  = inr (lit "integer division result too large for a float").
Proof. repeat apply conj; vm_compute; reflexivity. Qed.




(** C4. Cancel on a job in a terminal state is a no-op.  Cancel is the
    stop button of the row, the only caller of [_stop_download]; the
    handler that records a terminal status ([done], cancelled or failed)
    in an item disables that button, and nothing enables it again.  So in
    every reachable state a click on the stop button of a job whose item
    is in a terminal state changes nothing: no field of any item, no
    queue, no event, and nothing is raised. *)
Theorem C4_cancel_on_terminal_job (s : App) (dlid : Z)
    (item : DownloadItem) :
  reachable s -> downloads s !! dlid = Some item ->
  terminal_status (it_status item) = true ->
  step (Stop dlid) s = Some s /\
  (forall w, it_widgets item = Some w -> w_stop_btn w = false).
Proof.
  intros Hs Hitem Hterm.
  destruct (reachable_stop_ok s Hs) as [_ Hb].
  assert (forall w, it_widgets item = Some w -> w_stop_btn w = false) as Hw
    by (intros w Hw; eauto).
  split; [|done]. cbn [step]. unfold stop_btn_click. rewrite Hitem.
  destruct (it_widgets item) as [w|]; [|done]. by rewrite (Hw w).
Qed.

Lemma C4_cancel_on_terminal_job_witness :
  step (Stop 1) (state_of done_job) = Some (state_of done_job) /\
  it_status <$> downloads (state_of done_job) !! 1 = Some s_done.
Proof.
  destruct (downloads (state_of done_job) !! 1) as [item|] eqn:Hitem;
    [|by vm_compute in Hitem].
  assert (it_status item = s_done) as Hst.
  { revert Hitem. vm_compute. by intros [= <-]. }
  split; [|by rewrite <- Hst].
  apply (C4_cancel_on_terminal_job (state_of done_job) 1 item).
  - exists done_job. vm_compute. reflexivity.
  - exact Hitem.
  - by rewrite Hst.
Defined.

(** C6. An URL that is empty (or blank) is refused on the spot: the
    Tkinter [start_download] shows the message box and leaves the items,
    the counter, the queues and the threads as they are; the Flet
    [start_download] shows the inline error and starts no thread. *)
Theorem C6_empty_url_rejected (url : pystr) (s : App)
    (v : Flet.DownloadView) :
  strip url = [] ->
  (exists s', step (Submit url) s = Some s' /\
     dialogs s' = S (dialogs s) /\
     downloads s' = downloads s /\
     _download_counter s' = _download_counter s /\
     threads s' = threads s /\
     event_q s' = event_q s /\ log_q s' = log_q s /\
     handled s' = handled s) /\
  (Flet.url_input_value v = url ->
   Flet.started (Flet.start_download v) = Flet.started v /\
   Flet.url_input_error_text (Flet.start_download v) = true /\
   Flet.download_button_disabled (Flet.start_download v)
   = Flet.download_button_disabled v).
Proof.
  intros Hurl. split.
  - eexists. split; [done|]. unfold start_download. rewrite Hurl. done.
  - intros Hv. unfold Flet.start_download. rewrite Hv, Hurl. done.
Qed.

Lemma C6_empty_url_rejected_witness :
  (exists s', step (Submit []) init = Some s' /\
     dialogs s' = 1%nat /\ downloads s' = ∅ /\ _download_counter s' = 1 /\
     threads s' = [] /\ event_q s' = [] /\ log_q s' = [] /\
     handled s' = []) /\
  (@nil N = [] ->
   Flet.started (Flet.start_download (Flet.mkView [] false [] false None 0 []))
   = [] /\
   Flet.url_input_error_text
     (Flet.start_download (Flet.mkView [] false [] false None 0 [])) = true /\
   Flet.download_button_disabled
     (Flet.start_download (Flet.mkView [] false [] false None 0 [])) = false).
Proof.
  apply (C6_empty_url_rejected [] init
           (Flet.mkView [] false [] false None 0 [])).
  reflexivity.
Defined.

(** Items are never removed and the counter never goes back. *)
Lemma run_monotone (tr : list Action) (s s' : App) :
  run tr s = Some s' ->
  dom (downloads s) ⊆ dom (downloads s') /\
  _download_counter s <= _download_counter s'.
Proof.
  revert s. induction tr as [|a tr IH]; intros s Hrun; simpl in Hrun.
  - inversion Hrun; subst. split; [done|lia].
  - destruct (step a s) as [s1|] eqn:Hstep; [|done].
    destruct (IH s1 Hrun) as [Hd Hc].
    destruct (step_shape a s s1 Hstep) as
      [(Hc1 & Hd1 & _)|(Hc1 & Hd1 & _)]; rewrite Hc1, Hd1 in *.
    + split; [done|lia].
    + split; [|lia]. etrans; [|exact Hd]. apply union_subseteq_r.
Qed.

(** C7. An accepted submission takes the value of the counter as job
    identifier.  That value is above every identifier handed out before
    (so the identifiers are strictly increasing and distinct) and has no
    item yet; when [start_download] returns the registry holds an item
    under it, in state [pending]; and whatever happens later the item
    stays and the counter stays above the identifier, so that it is not
    handed out again. *)
Theorem C7_fresh_increasing_id (s : App) (url : pystr) :
  reachable s -> strip url <> [] ->
  let dlid := _download_counter s in
  exists s' item,
    step (Submit url) s = Some s' /\
    downloads s !! dlid = None /\
    Forall (fun i => i < dlid) (thread_ids s) /\
    thread_ids s' = thread_ids s ++ [dlid] /\
    increasing (thread_ids s') /\
    _download_counter s' = dlid + 1 /\
    downloads s' !! dlid = Some item /\
    it_id item = dlid /\ it_status item = s_pending /\
    it_url item = strip url /\
    forall tr s'', run tr s' = Some s'' ->
      is_Some (downloads s'' !! dlid) /\ dlid < _download_counter s''.
Proof.
  intros Hs Hurl dlid.
  pose proof (reachable_ids_ok s Hs) as [Hd Ht Hi Hh].
  assert (PyStr.truthy (strip url) = true) as Htruthy
    by (by destruct (strip url)).
  set (s' := start_download url s).
  assert (step (Submit url) s = Some s') as Hstep by done.
  assert (reachable s') as Hs'.
  { apply (reachable_run [Submit url] s); [done|]. cbn [run].
    by rewrite Hstep. }
  assert (thread_ids s' = thread_ids s ++ [dlid]) as Hids.
  { unfold s', start_download, thread_ids. rewrite Htruthy. simpl.
    by rewrite fmap_app. }
  assert (exists item, downloads s' !! dlid = Some item /\
            it_id item = dlid /\ it_status item = s_pending /\
            it_url item = strip url) as (item & Hitem & Hfields).
  { unfold s', start_download. rewrite Htruthy. simpl. eexists.
    rewrite lookup_insert_eq. done. }
  exists s', item. split; [done|]. split.
  { apply not_elem_of_dom. intros Hin. specialize (Hd _ Hin). unfold dlid in *.
    lia. }
  split. { eapply Forall_impl; [exact Ht|]. simpl. by intros i [? _]. }
  split; [done|]. split. { apply (ids_increasing s'), reachable_ids_ok, Hs'. }
  split. { unfold s', start_download. by rewrite Htruthy. }
  split; [done|]. split; [apply Hfields|]. split; [apply Hfields|].
  split; [apply Hfields|].
  intros tr s'' Hrun. destruct (run_monotone tr s' s'' Hrun) as [Hsub Hle].
  split.
  - apply elem_of_dom, Hsub, elem_of_dom. eauto.
  - assert (_download_counter s' = dlid + 1) as Hc
      by (unfold s', start_download; by rewrite Htruthy).
    lia.
Qed.

Lemma C7_fresh_increasing_id_witness :
  exists s' item,
    step (Submit url1) (state_of done_job) = Some s' /\
    downloads (state_of done_job) !! 2 = None /\
    Forall (fun i => i < 2) (thread_ids (state_of done_job)) /\
    thread_ids s' = thread_ids (state_of done_job) ++ [2] /\
    increasing (thread_ids s') /\
    _download_counter s' = 2 + 1 /\
    downloads s' !! 2 = Some item /\
    it_id item = 2 /\ it_status item = s_pending /\
    it_url item = strip url1 /\
    forall tr s'', run tr s' = Some s'' ->
      is_Some (downloads s'' !! 2) /\ 2 < _download_counter s''.
Proof.
  apply (C7_fresh_increasing_id (state_of done_job) url1).
  - exists done_job. vm_compute. reflexivity.
  - vm_compute. discriminate.
Defined.

(** *** A cancellation event stays set *)

Lemma step_cancel_stays (a : Action) (s s' : App) (k : Z) :
  ids_ok s -> step a s = Some s' ->
  cancel_is_set k s = true -> cancel_is_set k s' = true.
Proof.
  intros Hids Hstep Hset.
  destruct a as [url|j| |t d|t path|t msg|t]; simpl in Hstep.
  - inversion Hstep; subst; clear Hstep. unfold start_download.
    destruct (PyStr.truthy (strip url)); [|done].
    unfold cancel_is_set in *. simpl.
    destruct (decide (_download_counter s = k)) as [<-|Hne].
    + destruct (downloads s !! _download_counter s) eqn:Hk; [|done].
      pose proof (ids_downloads s Hids (_download_counter s)) as Hlt.
      rewrite elem_of_dom, Hk in Hlt. specialize (Hlt (mk_is_Some _ _ eq_refl)).
      lia.
    + by rewrite lookup_insert_ne.
  - inversion Hstep; subst; clear Hstep.
    destruct (stop_btn_click_cases j s) as [-> | ->]; [done|].
    unfold _stop_download.
    destruct (downloads s !! j) as [item|] eqn:Hj; [|done].
    unfold cancel_is_set in *. simpl.
    destruct (decide (j = k)) as [->|Hne].
    + rewrite lookup_insert_eq. simpl. by destruct (it_cancel_event item).
    + by rewrite lookup_insert_ne.
  - inversion Hstep; subst; clear Hstep. by rewrite flush_cancel.
  - destruct (threads s !! t) as [[i u [| |]]|]; try done.
    pose proof (progress_hook_history i d s) as (_ & _ & Hd & _).
    unfold cancel_is_set in *.
    destruct (progress_hook i d s) as [s1 [msg|]]; simpl in *;
      inversion Hstep; subst; clear Hstep; simpl; by rewrite Hd.
  - destruct (threads s !! t) as [[i u [| |]]|]; try done.
    inversion Hstep; subst; clear Hstep. done.
  - destruct (threads s !! t) as [[i u [| |]]|]; try done.
    inversion Hstep; subst; clear Hstep. done.
  - destruct (threads s !! t) as [[i u [|msg|]]|]; try done.
    inversion Hstep; subst; clear Hstep.
    pose proof (worker_except_frame i msg s) as (_ & _ & Hd & _).
    unfold cancel_is_set in *. simpl. by rewrite Hd.
Qed.

Lemma run_cancel_stays (tr : list Action) (s s' : App) (k : Z) :
  ids_ok s -> run tr s = Some s' ->
  cancel_is_set k s = true -> cancel_is_set k s' = true.
Proof.
  revert s. induction tr as [|a tr IH]; intros s Hids Hrun Hset;
    simpl in Hrun.
  - by inversion Hrun; subst.
  - destruct (step a s) as [s1|] eqn:Hstep; [|done].
    eauto using ids_ok_step, step_cancel_stays.
Qed.

Lemma dispatch_dl_status (i : Z) (text : pystr) (m : gmap Z DownloadItem) :
  i ∈ dom m ->
  exists item, (dispatch_dl (EvStatus i text) m).1 !! i = Some item /\
               it_status item = text.
Proof.
  intros [item Hi]%elem_of_dom. unfold dispatch_dl. simpl.
  unfold _set_download_status. simpl. rewrite Hi. simpl.
  eexists. rewrite lookup_insert_eq. done.
Qed.

(** C10. The [except] clause reports a cancellation, not a failure, for
    every exception whose text contains [USER_CANCELLED] and for every
    exception that reaches it while the cancellation event of the job is
    set.  The event, once set, stays set; so any error of the fetcher that
    follows a stop request, whatever its message, ends the job with the
    cancelled status as its only terminal event, and the next flush
    records that status in the item. *)
Theorem C10_error_after_cancel_is_cancelled (s0 s : App)
    (tr : list Action) (t : nat) (dlid : Z) (url msg : pystr) :
  reachable s0 -> run tr s0 = Some s ->
  threads s !! t = Some (mkWorker dlid url (Raised msg)) ->
  contains s_user_cancelled msg = true \/ cancel_is_set dlid s0 = true ->
  exists s' item,
    step (Handle t) s = Some s' /\
    event_q s' = event_q s ++ [EvStatus dlid s_cancelled] /\
    filter (fun e => is_terminal e = true) (events_of dlid (history s'))
    = [EvStatus dlid s_cancelled] /\
    (_flush_logs s').2 = false /\
    downloads (_flush_logs s').1 !! dlid = Some item /\
    it_status item = s_cancelled.
Proof.
  intros Hs0 Hrun Ht Hcond.
  assert (reachable s) as Hs by eauto using reachable_run.
  destruct (reachable_rows_ok s Hs) as [Hids Hrows].
  assert (contains s_user_cancelled msg || cancel_is_set dlid s = true)
    as Hcancel.
  { apply orb_true_iff. destruct Hcond as [?|Hset]; [by left|right].
    apply (run_cancel_stays tr s0 s dlid); [by apply reachable_ids_ok|done..]. }
  set (ev := EvStatus dlid s_cancelled).
  assert (worker_except dlid msg s
          = put_log (LogCancelled dlid) (put_event ev s)) as Hexc.
  { unfold worker_except. by rewrite Hcancel. }
  set (s' := set_pc t Exited (worker_except dlid msg s)).
  assert (step (Handle t) s = Some s') as Hstep.
  { cbn [step]. by rewrite Ht. }
  assert (reachable s') as Hs'.
  { apply (reachable_run [Handle t] s); [done|]. cbn [run]. by rewrite Hstep. }
  pose proof (thread_has_item s t _ Hids Ht) as Hdom. simpl in Hdom.
  destruct (flush_no_exception s' Hs') as (Hr & _ & _ & Hdl).
  assert (event_q s' = event_q s ++ [ev]) as Hq
    by (unfold s'; by rewrite Hexc).
  assert (downloads s' = downloads s) as Hd
    by (unfold s'; by rewrite Hexc).
  destruct (queue_ok_drain _ _ Hrows) as (Hr0 & Hdom0 & _).
  rewrite Hq, Hd, drain_dl_snoc in Hdl by done.
  destruct (dispatch_dl_status dlid s_cancelled
              (drain_dl (event_q s) (downloads s)).1)
    as (item & Hitem & Hst); [by rewrite Hdom0|].
  exists s', item. rewrite Hdl. repeat split; try done.
  unfold s'. rewrite history_set_pc, Hexc.
  change (history (put_log ?m ?x)) with (history x).
  rewrite history_put_event. apply terminal_events_snoc; try done.
  apply (terminal_count_thread s t _ Hs Ht).
Qed.

Lemma C10_error_after_cancel_is_cancelled_witness :
  contains s_user_cancelled timeout_msg = false /\
  exists s' item,
    step (Handle 0) (state_of ([Submit url1; Flush; Stop 1] ++ [FetchRaises 0 timeout_msg]))
    = Some s' /\
    event_q s'
    = event_q (state_of ([Submit url1; Flush; Stop 1] ++ [FetchRaises 0 timeout_msg]))
      ++ [EvStatus 1 s_cancelled] /\
    filter (fun e => is_terminal e = true) (events_of 1 (history s'))
    = [EvStatus 1 s_cancelled] /\
    (_flush_logs s').2 = false /\
    downloads (_flush_logs s').1 !! 1 = Some item /\
    it_status item = s_cancelled.
Proof.
  split; [vm_compute; reflexivity|].
  apply (C10_error_after_cancel_is_cancelled
           (state_of [Submit url1; Flush; Stop 1])
           (state_of ([Submit url1; Flush; Stop 1] ++ [FetchRaises 0 timeout_msg]))
           [FetchRaises 0 timeout_msg] 0 1 url1 timeout_msg).
  - exists [Submit url1; Flush; Stop 1]. vm_compute. reflexivity.
  - vm_compute. reflexivity.
  - vm_compute. reflexivity.
  - right. vm_compute. reflexivity.
Defined.

(** *** The Tkinter path does not look at URLs *)









(** *** Progress events and notifications *)



Lemma omap_cons_eq {A B : Type} (f : A -> option B) (x : A) (l : list A) :
  omap f (x :: l)
  = match f x with Some y => y :: omap f l | None => omap f l end.
Proof. done. Qed.








(** *** The order of the events of a job *)

Lemma nondecreasing_app (l1 l2 : list Z) :
  nondecreasing (l1 ++ l2) <->
  nondecreasing l1 /\ nondecreasing l2 /\
  Forall (fun a => Forall (fun b => a <= b) l2) l1.
Proof.
  induction l1 as [|x l1 IH]; simpl.
  - intuition.
  - rewrite Forall_app, Forall_cons, IH. intuition.
Qed.

Lemma nondecreasing_sublist (l1 l2 : list Z) :
  l1 `sublist_of` l2 -> nondecreasing l2 -> nondecreasing l1.
Proof.
  induction 1 as [|x l1 l2 Hsub IH|x l1 l2 Hsub IH]; simpl; [done| |].
  - intros [Hx Hl]. split; [|auto].
    rewrite Forall_forall in *. intros y Hy. apply Hx.
    eapply elem_of_sublist; eauto.
  - intros [_ Hl]. auto.
Qed.

Lemma nondecreasing_replicate (n : nat) (x : Z) :
  nondecreasing (replicate n x).
Proof.
  induction n as [|n IH]; simpl; [done|]. split; [|done].
  apply Forall_replicate. lia.
Qed.

(** The words of the pattern go through its positions in order. *)
Lemma pattern_phases (full : list Kind) :
  in_pattern full -> nondecreasing (phase <$> full).
Proof.
  intros (n & sc & term & Hterm & ->).
  rewrite fmap_cons, !fmap_app, fmap_replicate. simpl.
  assert (phase term = 3) as -> by (by destruct term).
  split.
  - rewrite !Forall_app. split; [apply Forall_replicate; lia|].
    destruct sc; simpl; split; repeat constructor; lia.
  - rewrite !nondecreasing_app.
    split; [apply nondecreasing_replicate|].
    split.
    + destruct sc; simpl; repeat split; repeat constructor; lia.
    + apply Forall_replicate. rewrite Forall_app.
      destruct sc; simpl; split; repeat constructor; lia.
Qed.

Lemma terminal_kind_of (ev : Event) :
  is_terminal ev = true -> terminal_kind (kind_of ev) = true.
Proof.
  destruct ev as [| |i text|]; simpl; try done.
  destruct (bool_decide (text = s_cancelled)); [done|]. simpl.
  by intros ->.
Qed.

Lemma no_hook_events (i : Z) (ds : list HookDict) :
  Forall (fun d => get (d_status d) <> VStr s_downloading /\
                   get (d_status d) <> VStr s_finished) ds ->
  omap (hook_event i) ds = [].
Proof.
  induction 1 as [|d ds [Hd Hf] _ IH]; [done|].
  rewrite omap_cons_eq, IH. unfold hook_event.
  rewrite !decide_False by congruence. done.
Qed.

(** When "finished" comes last the notifications give progress events
    and then at most one status event. *)
Lemma hook_kinds (i : Z) (ds : list HookDict) :
  finished_is_last ds ->
  exists (n : nat) (sc : bool),
    kind_of <$> omap (hook_event i) ds
    = replicate n Progress ++ (if sc then [StatusChanged] else []).
Proof.
  induction ds as [|d ds IH].
  - intros _. by exists 0%nat, false.
  - intros [Hfin Hlast]. destruct (IH Hlast) as (n & sc & Hks).
    rewrite omap_cons_eq. unfold hook_event at 1.
    destruct (decide (get (d_status d) = VStr s_downloading)).
    + destruct (hook_percent d); [|by exists n, sc].
      exists (S n), sc. by rewrite fmap_cons, Hks.
    + destruct (decide (get (d_status d) = VStr s_finished)) as [Hf|];
        [|by exists n, sc].
      exists 0%nat, true. by rewrite (no_hook_events i ds (Hfin Hf)).
Qed.

Lemma prefix_progress_status (l : list Kind) (n : nat) (sc : bool) :
  l `prefix_of` replicate n Progress ++ (if sc then [StatusChanged] else []) ->
  exists (n' : nat) (sc' : bool),
    l = replicate n' Progress ++ (if sc' then [StatusChanged] else []).
Proof.
  revert l. induction n as [|n IH]; intros l Hpre; simpl in Hpre.
  - destruct l as [|k l]; [by exists 0%nat, false|].
    destruct sc; [|by apply prefix_nil_not in Hpre].
    pose proof (prefix_cons_inv_1 _ _ _ _ Hpre) as ->.
    apply prefix_cons_inv_2, prefix_nil_inv in Hpre as ->.
    by exists 0%nat, true.
  - destruct l as [|k l]; [by exists 0%nat, false|].
    pose proof (prefix_cons_inv_1 _ _ _ _ Hpre) as ->.
    apply prefix_cons_inv_2 in Hpre.
    destruct (IH l Hpre) as (n' & sc' & ->). by exists (S n'), sc'.
Qed.

(** The kinds of the events of a job whose fetcher sends "finished"
    last. *)
Lemma job_kinds_shape (tr : list Action) (s : App) (t : nat) (w : Worker) :
  run tr init = Some s -> threads s !! t = Some w ->
  finished_is_last (hooks_of t tr) ->
  exists (n : nat) (sc : bool) (term : list Kind),
    job_kinds (wk_dlid w) (history s)
    = Added :: replicate n Progress
            ++ (if sc then [StatusChanged] else []) ++ term /\
    (term = [] \/ exists k, term = [k] /\ terminal_kind k = true).
Proof.
  intros Hrun Ht Hlast.
  destruct (jobs_ok_run tr s Hrun) as [_ Hview].
  destruct (Hview t w Ht) as (mid & term & Hev & Hpre & _ & Hex & Hnex).
  destruct (hook_kinds (wk_dlid w) _ Hlast) as (n & sc & Hks).
  assert (kind_of <$> mid
            `prefix_of` replicate n Progress
                        ++ (if sc then [StatusChanged] else [])) as Hpk.
  { rewrite <- Hks. destruct Hpre as [k Hk]. unfold hook_events in Hk.
    rewrite Hk, fmap_app. by apply prefix_app_r. }
  destruct (prefix_progress_status _ _ _ Hpk) as (n' & sc' & Hmid).
  exists n', sc', (kind_of <$> term). split.
  - unfold job_kinds. rewrite Hev, fmap_cons, fmap_app, Hmid.
    by rewrite <- app_assoc.
  - destruct (decide (wk_pc w = Exited)) as [Hpc|Hpc].
    + destruct (Hex Hpc) as (ev & -> & Hterm). right.
      exists (kind_of ev). split; [done|]. by apply terminal_kind_of.
    + left. by rewrite (Hnex Hpc).
Qed.

Lemma job_kinds_app (i : Z) (evs1 evs2 : list Event) :
  job_kinds i (evs1 ++ evs2) = job_kinds i evs1 ++ job_kinds i evs2.
Proof. unfold job_kinds, events_of. by rewrite filter_app, fmap_app. Qed.

Lemma subsequence_of_pattern_app_l (ks1 ks2 : list Kind) :
  subsequence_of_pattern (ks1 ++ ks2) -> subsequence_of_pattern ks1.
Proof.
  intros (full & Hfull & Hsub). exists full. split; [done|].
  etrans; [|exact Hsub]. by apply sublist_inserts_r.
Qed.

(** C8, as stated, fails: the worker publishes the events of the
    notifications in the order the fetcher sends them.  For a play list
    yt-dlp reports the first file finished and then the progress of the
    second one; the events handled for the job are then an announcement,
    a status change and a progress event, which is no subsequence of a
    word of the pattern. *)
Lemma C8_counterexample :
  run two_files init = Some (state_of two_files) /\
  job_kinds 1 (handled (state_of two_files))
  = [Added; StatusChanged; Progress] /\
  ~ subsequence_of_pattern (job_kinds 1 (handled (state_of two_files))).
Proof.
  assert (job_kinds 1 (handled (state_of two_files))
          = [Added; StatusChanged; Progress]) as Hk
    by (vm_compute; reflexivity).
  repeat apply conj; try (vm_compute; reflexivity).
  rewrite Hk. intros (full & Hfull & Hsub).
  apply pattern_phases in Hfull.
  apply (fmap_sublist phase) in Hsub.
  pose proof (nondecreasing_sublist _ _ Hsub Hfull) as Hnd.
  simpl in Hnd. destruct Hnd as (_ & H2 & _).
  apply Forall_cons in H2 as [H2 _]. lia.
Qed.

(** C8, amended. The events of a job are, in the order they were put
    on the queue: the announcement of the row, then one progress or
    status event per notification of the fetcher, in the order of the
    notifications (for all of them while the fetch runs, and up to the
    one whose hook raised afterwards), then one terminal event once the
    worker has left the [try] statement.  The queue is first in, first
    out: a step takes events from its head only, hands them to the
    handlers in that order and puts new events at its end.  So, when the
    fetcher sends no "downloading" and no second "finished" notification
    after a "finished" one, the kinds of the events published for the
    job, and of those handled, form a subsequence of [Added, Progress*,
    StatusChanged?, (Completed | Failed | Cancelled)]. *)
Theorem C8_event_order (tr : list Action) (s : App) (t : nat) (w : Worker) :
  run tr init = Some s -> threads s !! t = Some w ->
  (exists mid term,
     events_of (wk_dlid w) (history s)
     = EvAdd (wk_dlid w) s_preparing :: mid ++ term /\
     mid `prefix_of` hook_events (wk_dlid w) t tr /\
     (wk_pc w = Running -> mid = hook_events (wk_dlid w) t tr) /\
     (wk_pc w = Exited -> exists ev, term = [ev] /\ is_terminal ev = true) /\
     (wk_pc w <> Exited -> term = [])) /\
  (forall a s', step a s = Some s' ->
     exists (n : nat) (new : list Event),
       handled s' = handled s ++ take n (event_q s) /\
       event_q s' = drop n (event_q s) ++ new) /\
  (finished_is_last (hooks_of t tr) ->
   subsequence_of_pattern (job_kinds (wk_dlid w) (history s)) /\
   subsequence_of_pattern (job_kinds (wk_dlid w) (handled s))).
Proof.
  intros Hrun Ht. split.
  { destruct (jobs_ok_run tr s Hrun) as [_ Hview]. exact (Hview t w Ht). }
  split; [intros a s'; apply step_fifo|]. intros Hlast.
  assert (subsequence_of_pattern (job_kinds (wk_dlid w) (history s))) as Hh.
  { destruct (job_kinds_shape tr s t w Hrun Ht Hlast)
      as (n & sc & term & -> & [->|(k & -> & Hk)]).
    - exists (Added :: replicate n Progress
                    ++ (if sc then [StatusChanged] else []) ++ [Completed]).
      split; [by exists n, sc, Completed|].
      apply sublist_skip. rewrite app_nil_r, app_assoc.
      by apply sublist_inserts_r.
    - eexists. split; [by exists n, sc, k|done]. }
  split; [done|].
  unfold history in Hh. rewrite job_kinds_app in Hh.
  by apply subsequence_of_pattern_app_l in Hh.
Qed.

Lemma C8_event_order_witness :
  exists mid term,
    events_of 1 (history (state_of two_files))
    = EvAdd 1 s_preparing :: mid ++ term /\
    mid = hook_events 1 0 two_files /\ term = [].
Proof.
  destruct (C8_event_order two_files (state_of two_files) 0
              (mkWorker 1 url1 Running))
    as ((mid & term & Hev & _ & Hmid & _ & Hterm) & _).
  - vm_compute. reflexivity.
  - vm_compute. reflexivity.
  - exists mid, term. split; [exact Hev|].
    split; [apply Hmid; reflexivity|apply Hterm; discriminate].
Defined.

(** Scenario A of the specification: the events handled, in order. *)
Example scenario_a_events :
  run scenario_a init = Some (state_of scenario_a) /\
  handled (state_of scenario_a)
  = [EvAdd 1 s_preparing; EvProgress 1 40 speed1 (VInt 2);
     EvProgress 1 100 speed1 (VInt 2); EvStatus 1 s_finalizing;
     EvDone 1 path1] /\
  it_status <$> downloads (state_of scenario_a) !! 1 = Some s_done.
Proof. repeat apply conj; vm_compute; reflexivity. Qed.

(** ** Further properties of the Tkinter application *)

(** *** The flush *)

(** X1. In every reachable state [_flush_logs] runs to its end: no handler
    raises, both queues end up empty, the log lines reach the log widget
    and the events the handlers in the order they were put, and
    afterwards every item of the registry has the widgets of its row. *)
Theorem flush_handles_everything (s : App) :
  reachable s ->
  (_flush_logs s).2 = false /\
  event_q (_flush_logs s).1 = [] /\ log_q (_flush_logs s).1 = [] /\
  handled (_flush_logs s).1 = handled s ++ event_q s /\
  log_text (_flush_logs s).1 = log_text s ++ log_q s /\
  threads (_flush_logs s).1 = threads s /\
  _download_counter (_flush_logs s).1 = _download_counter s /\
  dom (downloads (_flush_logs s).1) = dom (downloads s) /\
  forall k item, downloads (_flush_logs s).1 !! k = Some item ->
                 is_Some (it_widgets item).
Proof.
  intros Hs. pose proof (flush_no_exception s Hs) as (Hr & Hq & Hh & Hd).
  destruct (reachable_rows_ok s Hs) as [_ Hrows].
  destruct (queue_ok_drain _ _ Hrows) as (_ & _ & Hrow).
  split; [exact Hr|]. split; [exact Hq|]. split.
  { unfold _flush_logs.
    apply (drain_events_preserves (fun s' => log_q s' = [])); try done.
    intros ev s1 H.
    destruct (dispatch_frame ev s1) as (_ & _ & _ & _ & Hl & _).
    by rewrite Hl. }
  split; [exact Hh|]. split.
  { unfold _flush_logs.
    apply (drain_events_preserves
             (fun s' => log_text s' = log_text s ++ log_q s)); try done.
    intros ev s1 H.
    destruct (dispatch_frame ev s1) as (_ & _ & _ & _ & _ & Hl & _).
    by rewrite Hl. }
  split; [apply flush_threads|]. split; [apply flush_counter|].
  split; [apply flush_dom|].
  intros k item Hk. rewrite Hd in Hk.
  destruct (it_widgets item) as [w|] eqn:Hw; [by eexists|].
  exfalso. apply (Hrow k). by exists item.
Qed.

Lemma flush_handles_everything_witness :
  reachable (state_of two_jobs) /\
  (_flush_logs (state_of two_jobs)).2 = false /\
  event_q (_flush_logs (state_of two_jobs)).1 = [].
Proof.
  assert (reachable (state_of two_jobs)) as H.
  { exists two_jobs. vm_compute. reflexivity. }
  split; [exact H|].
  destruct (flush_handles_everything (state_of two_jobs) H) as (H1 & H2 & _).
  by split.
Defined.

(** *** The row of a job that has ended *)

Lemma set_status_row (i : Z) (text : pystr) (s : App) (item : DownloadItem)
    (w : Widgets) :
  downloads s !! i = Some item -> it_widgets item = Some w ->
  is_terminal (EvStatus i text) = true ->
  _set_download_status i text s
  = (with_downloads
       (insert i
          (mkItem (it_id item) (it_title item) (it_url item) text
             (it_progress item) (it_speed item) (it_eta item)
             (it_filepath item) (it_cancel_event item) (it_thread item)
             (Some (mkWidgets (w_label w) (w_pb w) (LblText text)
                              (w_open_btn w) false)))) s, false).
Proof.
  intros Hi Hw Hterm. unfold _set_download_status.
  rewrite Hi. cbv beta iota zeta.
  by rewrite Hw, (terminal_status_final i text Hterm).
Qed.

(** X2. Handling the terminal event of a job whose row exists ends the row:
    the stop button is disabled; after [done] the item holds the file
    path, the open button is enabled and the bar is full; after a
    cancelled or failed status the item holds the status text, and the
    path, the bar and the open button are as before.  No other item
    changes and the cancellation event is left alone. *)
Theorem terminal_event_ends_row (ev : Event) (s : App)
    (item : DownloadItem) (w : Widgets) :
  is_terminal ev = true ->
  downloads s !! event_id ev = Some item -> it_widgets item = Some w ->
  (dispatch ev s).2 = false /\
  (forall k, k <> event_id ev ->
             downloads (dispatch ev s).1 !! k = downloads s !! k) /\
  exists item' w',
    downloads (dispatch ev s).1 !! event_id ev = Some item' /\
    it_widgets item' = Some w' /\
    w_stop_btn w' = false /\
    it_cancel_event item' = it_cancel_event item /\
    match ev with
    | EvDone _ filepath =>
        it_status item' = s_done /\ it_filepath item' = filepath /\
        w_open_btn w' = true /\ w_pb w' = 100 /\ w_status w' = LblDone
    | EvStatus _ text =>
        it_status item' = text /\ it_filepath item' = it_filepath item /\
        w_open_btn w' = w_open_btn w /\ w_pb w' = w_pb w /\
        w_status w' = LblText text
    | _ => False
    end.
Proof.
  intros Hterm Hitem Hw.
  destruct ev as [i ?|i ? ? ?|i text|i fp];
    try (simpl in Hterm; discriminate); cbn [event_id dispatch] in *.
  - rewrite (set_status_row i text s item w Hitem Hw Hterm).
    cbn [fst snd]. unfold with_downloads. cbn [downloads].
    split; [done|]. split.
    + intros k Hk. by rewrite lookup_insert_ne.
    + eexists _, _. rewrite lookup_insert_eq. cbn.
      repeat apply conj; reflexivity.
  - unfold _set_download_done. rewrite Hitem. cbv beta iota zeta.
    rewrite Hw. cbn [fst snd]. unfold with_downloads. cbn [downloads].
    split; [done|]. split.
    + intros k Hk. by rewrite lookup_insert_ne.
    + eexists _, _. rewrite lookup_insert_eq. cbn.
      repeat apply conj; reflexivity.
Qed.

Lemma terminal_event_ends_row_witness :
  exists item' w',
    downloads (dispatch (EvStatus 1 s_cancelled) (state_of stopped_job)).1 !! 1
    = Some item' /\
    it_widgets item' = Some w' /\ w_stop_btn w' = false.
Proof.
  destruct (downloads (state_of stopped_job) !! 1) as [item|] eqn:Hitem;
    [|by vm_compute in Hitem].
  destruct (it_widgets item) as [w|] eqn:Hw.
  2:{ revert Hitem Hw. vm_compute. intros [= <-]. discriminate. }
  destruct (terminal_event_ends_row (EvStatus 1 s_cancelled)
              (state_of stopped_job) item w eq_refl Hitem Hw)
    as (_ & _ & item' & w' & H1 & H2 & H3 & _).
  exists item', w'. auto.
Defined.

(** *** A direct call of [_stop_download] *)



(** *** What a worker touches *)




(** *** After a stop request *)






(** *** A failed job *)

(** X6. An exception that is no cancellation (its text does not hold
    [USER_CANCELLED] and the cancellation event is clear) ends the job
    with the failed status: the error handler publishes the status with
    the text of the exception as the only terminal event of the job and
    logs the failure, and the next flush writes the status into the item
    and into its row and disables the stop button. *)
Theorem failure_is_reported (s : App) (t : nat) (dlid : Z)
    (url msg : pystr) :
  reachable s ->
  threads s !! t = Some (mkWorker dlid url (Raised msg)) ->
  contains s_user_cancelled msg = false ->
  cancel_is_set dlid s = false ->
  exists s' item w,
    step (Handle t) s = Some s' /\
    event_q s' = event_q s ++ [EvStatus dlid (s_error_prefix ++ msg)] /\
    log_q s' = log_q s ++ [LogFailed msg] /\
    terminal_events dlid (history s')
    = [EvStatus dlid (s_error_prefix ++ msg)] /\
    (_flush_logs s').2 = false /\
    downloads (_flush_logs s').1 !! dlid = Some item /\
    it_status item = s_error_prefix ++ msg /\
    it_widgets item = Some w /\ w_stop_btn w = false /\
    w_status w = LblText (s_error_prefix ++ msg).
Proof.
  intros Hs Ht Hm Hc.
  destruct (reachable_rows_ok s Hs) as [Hids Hrows].
  set (text := s_error_prefix ++ msg). set (ev := EvStatus dlid text).
  assert (worker_except dlid msg s
          = put_log (LogFailed msg) (put_event ev s)) as Hexc.
  { unfold worker_except. by rewrite Hm, Hc. }
  set (s' := set_pc t Exited (worker_except dlid msg s)).
  assert (step (Handle t) s = Some s') as Hstep.
  { cbn [step]. by rewrite Ht. }
  assert (reachable s') as Hs'.
  { apply (reachable_run [Handle t] s); [done|]. cbn [run]. by rewrite Hstep. }
  pose proof (thread_has_item s t _ Hids Ht) as Hdom. simpl in Hdom.
  destruct (flush_no_exception s' Hs') as (Hr & _ & _ & Hdl).
  assert (event_q s' = event_q s ++ [ev]) as Hq
    by (unfold s'; by rewrite Hexc).
  assert (log_q s' = log_q s ++ [LogFailed msg]) as Hl
    by (unfold s'; by rewrite Hexc).
  assert (downloads s' = downloads s) as Hd
    by (unfold s'; by rewrite Hexc).
  destruct (queue_ok_drain _ _ Hrows) as (Hr0 & Hdom0 & Hrow0).
  rewrite Hq, Hd, drain_dl_snoc in Hdl by done.
  set (m1 := (drain_dl (event_q s) (downloads s)).1) in *.
  assert (exists item1, m1 !! dlid = Some item1) as [item1 Hi1].
  { apply elem_of_dom. by rewrite Hdom0. }
  destruct (it_widgets item1) as [w1|] eqn:Hw1.
  2:{ exfalso. apply (Hrow0 dlid). by exists item1. }
  assert (is_terminal ev = true) as Hterm by apply error_status_terminal.
  assert ((dispatch_dl ev m1).1
          = <[dlid := mkItem (it_id item1) (it_title item1) (it_url item1)
                        text (it_progress item1) (it_speed item1)
                        (it_eta item1) (it_filepath item1)
                        (it_cancel_event item1) (it_thread item1)
                        (Some (mkWidgets (w_label w1) (w_pb w1)
                                 (LblText text) (w_open_btn w1) false))]> m1)
    as Hm2.
  { unfold dispatch_dl. cbn [dispatch ev].
    by rewrite (set_status_row dlid text (mkApp m1 0 [] [] [] 0 [] [])
                  item1 w1 Hi1 Hw1 Hterm). }
  rewrite Hm2 in Hdl.
  eexists s', _, _. split; [done|]. split; [done|]. split; [done|].
  split.
  { unfold s'. rewrite history_set_pc, Hexc, history_put_log,
      history_put_event.
    apply terminal_events_snoc; try done.
    apply (terminal_count_thread s t _ Hs Ht). }
  split; [done|]. rewrite Hdl, lookup_insert_eq. split; [done|]. done.
Qed.

Lemma failure_is_reported_witness :
  exists s',
    step (Handle 0) (state_of failing_job) = Some s' /\
    event_q s'
    = event_q (state_of failing_job)
      ++ [EvStatus 1 (s_error_prefix ++ timeout_msg)].
Proof.
  destruct (failure_is_reported (state_of failing_job) 0 1 url1 timeout_msg)
    as (s' & item & w & Hstep & Hq & _).
  - exists failing_job. vm_compute. reflexivity.
  - vm_compute. reflexivity.
  - vm_compute. reflexivity.
  - vm_compute. reflexivity.
  - by exists s'.
Defined.

(** *** Opening a file *)

Lemma paths_ok_handle (ev : Event) (q : list Event) (s : App) :
  paths_ok s -> paths_ok (dispatch ev (take_event ev q s)).1.
Proof.
  intros Hp.
  assert (forall k item, downloads s !! k = Some item ->
            it_filepath item <> [] ->
            EvDone k (it_filepath item) ∈ handled s ++ [ev]) as Hold.
  { intros k item Hk Hne. apply elem_of_app. left. eauto. }
  destruct ev as [i tt|i p sp e|i text|i fp]; cbn [dispatch];
    unfold _add_download_row, _update_download_row, _set_download_status,
      _set_download_done;
    change (downloads (take_event ?ev ?q s)) with (downloads s);
    destruct (downloads s !! i) as [item|] eqn:Hi; cbn [fst];
    try (intros k item' Hk Hne; cbn in Hk |- *; by apply Hold).
  - intros k item' Hk Hne. cbn in Hk |- *.
    destruct (decide (i = k)) as [->|Hik].
    + rewrite lookup_insert_eq in Hk. by inversion Hk; subst.
    + rewrite lookup_insert_ne in Hk by done. by apply Hold.
  - destruct (it_widgets item) as [w|]; cbn [fst];
      intros k item' Hk Hne; cbn in Hk |- *;
      (destruct (decide (i = k)) as [->|Hik];
       [rewrite lookup_insert_eq in Hk; inversion Hk; subst; clear Hk;
        cbn in Hne |- *; by apply Hold
       |rewrite lookup_insert_ne in Hk by done; by apply Hold]).
  - intros k item' Hk Hne. cbn in Hk |- *.
    destruct (decide (i = k)) as [->|Hik].
    + rewrite lookup_insert_eq in Hk. inversion Hk; subst; clear Hk.
      cbn in Hne |- *. by apply Hold.
    + rewrite lookup_insert_ne in Hk by done. by apply Hold.
  - intros k item' Hk Hne. cbn in Hk |- *.
    destruct (decide (i = k)) as [->|Hik].
    + rewrite lookup_insert_eq in Hk. inversion Hk; subst; clear Hk.
      cbn. apply elem_of_app. right. by apply list_elem_of_singleton.
    + rewrite lookup_insert_ne in Hk by done. by apply Hold.
Qed.

Lemma paths_ok_drain (q : list Event) (s : App) :
  paths_ok s -> paths_ok (drain_events q s).1.
Proof.
  revert s. induction q as [|ev q IH]; intros s Hp; [done|].
  cbn [drain_events].
  pose proof (paths_ok_handle ev q s Hp) as H1.
  destruct (dispatch ev (take_event ev q s)) as [s1 [|]]; cbn [fst] in *;
    auto.
Qed.

Lemma worker_step_frame_aux (a : Action) (t : nat) (s s' : App) :
  worker_action a = Some t -> step a s = Some s' ->
  downloads s' = downloads s /\ handled s' = handled s.
Proof.
  intros Ha Hstep.
  destruct a as [url|k| |t0 d|t0 path|t0 msg|t0]; cbn in Ha; try done;
    cbn [step] in Hstep.
  - destruct (threads s !! t0) as [[i u [| |]]|] eqn:Ht; try done.
    pose proof (progress_hook_frame i d s) as (_ & _ & Hd & Hh & _).
    destruct (progress_hook i d s) as [s1 [m|]]; cbn [fst snd] in *;
      inversion Hstep; subst; clear Hstep; done.
  - destruct (threads s !! t0) as [[i u [| |]]|] eqn:Ht; try done.
    by inversion Hstep; subst.
  - destruct (threads s !! t0) as [[i u [| |]]|] eqn:Ht; try done.
    by inversion Hstep; subst.
  - destruct (threads s !! t0) as [[i u [|m|]]|] eqn:Ht; try done.
    inversion Hstep; subst; clear Hstep.
    destruct (worker_except_queue i m s) as (text & _ & Hh & Hd & _). done.
Qed.

Lemma paths_ok_step (a : Action) (s s' : App) :
  paths_ok s -> step a s = Some s' -> paths_ok s'.
Proof.
  intros Hp Hstep.
  destruct (worker_action a) as [t|] eqn:Ha.
  { destruct (worker_step_frame_aux a t s s' Ha Hstep) as [Hd Hh].
    intros k item Hk Hne. rewrite Hd in Hk. rewrite Hh. eauto. }
  destruct a as [url|j| |t d|t path|t msg|t]; try done;
    cbn [step] in Hstep; inversion Hstep; subst; clear Hstep.
  - unfold start_download.
    destruct (PyStr.truthy (strip url)); cbn [negb]; [|done].
    intros k item Hk Hne. cbn in Hk |- *.
    destruct (decide (_download_counter s = k)) as [<-|Hik].
    + rewrite lookup_insert_eq in Hk. by inversion Hk; subst.
    + rewrite lookup_insert_ne in Hk by done. eauto.
  - destruct (stop_btn_click_cases j s) as [-> | ->]; [done|].
    unfold _stop_download.
    destruct (downloads s !! j) as [item|] eqn:Hj; [|done].
    intros k item' Hk Hne. cbn in Hk |- *.
    destruct (decide (j = k)) as [->|Hik].
    + rewrite lookup_insert_eq in Hk. inversion Hk; subst; clear Hk.
      cbn in Hne |- *. eauto.
    + rewrite lookup_insert_ne in Hk by done. eauto.
  - unfold _flush_logs. by apply paths_ok_drain.
Qed.

Lemma reachable_paths_ok (s : App) : reachable s -> paths_ok s.
Proof.
  apply reachable_invariant; [|eauto using paths_ok_step].
  intros k item Hk. cbn in Hk. by rewrite lookup_empty in Hk.
Qed.

Lemma terminal_count_elem (k : Z) (evs : list Event) (ev : Event) :
  ev ∈ evs -> event_id ev = k -> is_terminal ev = true ->
  (0 < terminal_count k evs)%nat.
Proof.
  intros Hin Hid Hterm. unfold terminal_count, events_of.
  assert (ev ∈ filter (fun e => is_terminal e = true)
                 (filter (fun e => event_id e = k) evs)) as H.
  { apply list_elem_of_filter. split; [done|].
    by apply list_elem_of_filter. }
  destruct (filter _ (filter _ evs)); [by apply elem_of_nil in H|].
  simpl. lia.
Qed.

(** X7. The open button hands to the browser only a file that a [done] event
    of the job has brought: the [done] event was handled, and the worker
    of the job has ended.  The state is left as it is. *)
Theorem open_file_only_after_done (exists_ : pystr -> bool) (dlid : Z)
    (s : App) (path : pystr) :
  reachable s -> (_open_file exists_ dlid s).2 = Some path ->
  (_open_file exists_ dlid s).1 = s /\ exists_ path = true /\
  EvDone dlid path ∈ handled s /\
  exists t url, threads s !! t = Some (mkWorker dlid url Exited).
Proof.
  intros Hs. unfold _open_file.
  destruct (downloads s !! dlid) as [item|] eqn:Hi; [|done].
  destruct (PyStr.truthy (it_filepath item)) eqn:Htr; [|done].
  destruct (exists_ (it_filepath item)) eqn:Hex; [|done].
  cbn. intros [= <-]. split; [done|]. split; [done|].
  assert (EvDone dlid (it_filepath item) ∈ handled s) as Hin.
  { apply (reachable_paths_ok s Hs dlid item Hi).
    by destruct (it_filepath item). }
  split; [done|].
  assert (EvDone dlid (it_filepath item) ∈ history s) as Hhist
    by (apply elem_of_app; by left).
  pose proof (reachable_ids_ok s Hs) as Hids.
  pose proof (ids_history s Hids) as Hall. rewrite Forall_forall in Hall.
  specialize (Hall _ Hhist). cbn in Hall.
  unfold thread_ids in Hall. apply list_elem_of_fmap in Hall as (w & Hw & Hwin).
  apply list_elem_of_lookup in Hwin as [t Ht].
  pose proof (terminal_count_thread s t w Hs Ht) as Hcount.
  pose proof (terminal_count_elem dlid (history s) _ Hhist eq_refl eq_refl)
    as Hpos.
  rewrite <- Hw in Hcount. case_decide as Hpc; [|lia].
  exists t, (wk_url w). rewrite Ht. destruct w as [i u pc]. cbn in *.
  by subst.
Qed.

Lemma open_file_only_after_done_witness :
  EvDone 1 path1 ∈ handled (state_of done_job).
Proof.
  refine (proj1 (proj2 (proj2 (open_file_only_after_done (fun _ => true) 1
                                 (state_of done_job) path1 _ _)))).
  - exists done_job. vm_compute. reflexivity.
  - vm_compute. reflexivity.
Defined.

(** *** The registry and the threads *)

Lemma dispatch_item_key (ev : Event) (s : App) (k : Z) :
  item_key <$> downloads (dispatch ev s).1 !! k
  = item_key <$> downloads s !! k.
Proof.
  destruct ev as [i ?|i ? ? ?|i ?|i ?]; simpl;
    unfold _add_download_row, _update_download_row, _set_download_status,
      _set_download_done;
    destruct (downloads s !! i) as [item|] eqn:Hi; simpl; try done;
    try destruct (it_widgets item); simpl;
    (destruct (decide (i = k)) as [->|];
     [rewrite lookup_insert_eq, Hi | rewrite lookup_insert_ne by done]; done).
Qed.

Lemma same_jobs_refl (s : App) : same_jobs s s.
Proof. done. Qed.

Lemma same_jobs_set_pc (t : nat) (pc : Pc) (s s1 : App) :
  same_jobs s s1 -> same_jobs s (set_pc t pc s1).
Proof.
  intros (Hc & Hd & Ht). split; [done|]. split; [done|].
  rewrite <- Ht. unfold set_pc, with_threads. cbn [threads].
  destruct (threads s1 !! t) as [w|] eqn:Hw; [|done].
  rewrite list_fmap_insert. cbn. apply list_insert_id.
  by rewrite list_lookup_fmap, Hw.
Qed.

Lemma same_jobs_step (a : Action) (s s' : App) :
  (forall url, a <> Submit url) -> step a s = Some s' -> same_jobs s s'.
Proof.
  intros Hsub Hstep.
  destruct a as [url|j| |t d|t path|t msg|t]; cbn [step] in Hstep.
  - by destruct (Hsub url).
  - inversion Hstep; subst; clear Hstep.
    destruct (stop_btn_click_cases j s) as [-> | ->]; [done|].
    unfold _stop_download.
    destruct (downloads s !! j) as [item|] eqn:Hj; [|done].
    split; [done|]. split; [|done]. intros k. cbn.
    destruct (decide (j = k)) as [->|Hne].
    + by rewrite lookup_insert_eq, Hj.
    + by rewrite lookup_insert_ne.
  - inversion Hstep; subst; clear Hstep. unfold _flush_logs.
    apply (drain_events_preserves (fun s' => same_jobs s s')); try done.
    intros ev s1 (Hc & Hd & Ht).
    destruct (dispatch_frame ev s1) as (Hc' & _ & _ & Ht' & _).
    split; [congruence|]. split; [|congruence].
    intros k. by rewrite dispatch_item_key.
  - destruct (threads s !! t) as [[i u [| |]]|] eqn:Ht; try done.
    pose proof (progress_hook_frame i d s) as (Hth & Hc & Hd & _).
    assert (same_jobs s (progress_hook i d s).1) as H1.
    { split; [done|]. split; [by rewrite Hd|by rewrite Hth]. }
    destruct (progress_hook i d s) as [s1 [m|]]; cbn [fst snd] in *;
      inversion Hstep; subst; clear Hstep; auto using same_jobs_set_pc.
  - destruct (threads s !! t) as [[i u [| |]]|] eqn:Ht; try done.
    inversion Hstep; subst; clear Hstep. by apply same_jobs_set_pc.
  - destruct (threads s !! t) as [[i u [| |]]|] eqn:Ht; try done.
    inversion Hstep; subst; clear Hstep. by apply same_jobs_set_pc.
  - destruct (threads s !! t) as [[i u [|m|]]|] eqn:Ht; try done.
    inversion Hstep; subst; clear Hstep. apply same_jobs_set_pc.
    pose proof (worker_except_frame i m s) as (Hth & Hc & Hd & _).
    split; [done|]. split; [by rewrite Hd|by rewrite Hth].
Qed.

Lemma registry_ok_same (s s' : App) :
  same_jobs s s' -> registry_ok s -> registry_ok s'.
Proof.
  intros (Hc & Hd & Ht) [Rc Rt Ri].
  assert (length (threads s') = length (threads s)) as Hlen.
  { apply (f_equal length) in Ht. by rewrite !length_fmap in Ht. }
  split.
  - by rewrite Hc, Hlen.
  - intros t w' Hw'.
    assert (exists w, threads s !! t = Some w /\ wk_dlid w = wk_dlid w' /\
                      wk_url w = wk_url w') as (w & Hw & Hid & Hurl).
    { apply (f_equal (fun l => l !! t)) in Ht.
      rewrite !list_lookup_fmap, Hw' in Ht. cbn in Ht.
      destruct (threads s !! t) as [w|]; [|done]. cbn in Ht.
      exists w. by inversion Ht. }
    destruct (Rt t w Hw) as (Hdl & item & Hitem & Hi1 & Hi2 & Hi3).
    split; [congruence|].
    specialize (Hd (wk_dlid w)). rewrite Hitem in Hd. cbn in Hd.
    rewrite <- Hid.
    destruct (downloads s' !! wk_dlid w) as [item'|]; [|done].
    cbn in Hd. unfold item_key in Hd. inversion Hd as [[H1 H2 H3]].
    exists item'. split; [done|]. split_and!; congruence.
  - intros k Hk. rewrite Hc. apply Ri.
    specialize (Hd k). destruct Hk as [item' Hk]. rewrite Hk in Hd.
    destruct (downloads s !! k); [by eexists|done].
Qed.

Lemma registry_ok_step (a : Action) (s s' : App) :
  registry_ok s -> step a s = Some s' -> registry_ok s'.
Proof.
  intros Hr Hstep.
  destruct a as [url|j| |t d|t path|t msg|t];
    try (eapply registry_ok_same; [|exact Hr];
         eapply same_jobs_step; [|exact Hstep]; by intros ?).
  cbn [step] in Hstep. inversion Hstep; subst; clear Hstep.
  unfold start_download.
  destruct (PyStr.truthy (strip url)); cbn [negb].
  2:{ destruct Hr as [Rc Rt Ri]. by split. }
  destruct Hr as [Rc Rt Ri]. split; cbn.
  - rewrite length_app. cbn. lia.
  - intros t w Hw.
    destruct (decide (t < length (threads s))%nat) as [Hlt|Hge].
    + rewrite lookup_app_l in Hw by done.
      destruct (Rt t w Hw) as (Hdl & item & Hitem & Hi).
      split; [done|]. exists item. split; [|done].
      rewrite lookup_insert_ne; [done|]. lia.
    + rewrite lookup_app_r in Hw by lia.
      destruct (t - length (threads s))%nat as [|n] eqn:Hn;
        [|by destruct n].
      cbn in Hw. inversion Hw; subst; clear Hw. cbn.
      assert (t = length (threads s)) as -> by lia.
      split; [lia|]. eexists. rewrite lookup_insert_eq. done.
  - intros k [item Hk].
    destruct (decide (_download_counter s = k)) as [<-|Hne]; [lia|].
    rewrite lookup_insert_ne in Hk by done.
    assert (1 <= k < _download_counter s) by (apply Ri; by eexists). lia.
Qed.

(** X8. The registry and the threads describe the same jobs in every
    reachable state: the identifiers are 1, 2, 3, ... in the order of the
    submissions, the counter is the next one, every identifier below it
    has its item and its thread, and the item holds for good the
    identifier, the URL that was submitted (stripped) and the thread. *)
Theorem registry_matches_threads (s : App) :
  reachable s -> registry_ok s.
Proof.
  apply reachable_invariant; [|eauto using registry_ok_step].
  split; cbn; [done| |].
  - intros t w Hw. by rewrite lookup_nil in Hw.
  - intros k [item Hk]. by rewrite lookup_empty in Hk.
Qed.

Lemma registry_matches_threads_witness : registry_ok (state_of two_jobs).
Proof.
  apply registry_matches_threads. exists two_jobs. vm_compute. reflexivity.
Defined.

(** ** Further properties of the Flet application *)

Lemma hook_returns (d : HookDict) :
  Flet._yt_dlp_hook d = None <->
  exists status, d_status d = Some status /\
                 status <> VStr s_downloading /\
                 status <> VStr s_finished /\ status <> VStr Flet.s_error.
Proof.
  unfold Flet._yt_dlp_hook.
  destruct (d_status d) as [status|]; [|split; [done|by intros (? & ? & _)]].
  destruct (decide (status = VStr s_downloading)) as [Hd|Hd].
  { split; [|intros (? & [= <-] & ? & _); done].
    destruct (PyNum.truthy (get (d_total_bytes d))); [|done].
    destruct (d_downloaded_bytes d) as [dl|]; [|done].
    by destruct (PyNum.truediv dl (get (d_total_bytes d))). }
  destruct (decide (status = VStr s_finished)) as [Hf|Hf].
  { split; [done|intros (? & [= <-] & _ & ? & _); done]. }
  destruct (decide (status = VStr Flet.s_error)) as [He|He].
  { split; [done|intros (? & [= <-] & _ & _ & ?); done]. }
  split; [|done]. intros _. by exists status.
Qed.

Lemma first_raise_none (ds : list HookDict) :
  Flet.first_raise ds = None <->
  Forall (fun d => Flet._yt_dlp_hook d = None) ds.
Proof.
  induction ds as [|d ds IH]; cbn; [split; [constructor|done]|].
  destruct (Flet._yt_dlp_hook d) as [msg|] eqn:Hd.
  - split; [done|]. intros H. apply Forall_cons in H as [H _]. congruence.
  - rewrite IH. split; [by constructor|]. by intros [_ H]%Forall_cons.
Qed.

(** X9. [download_video_yt_dlp] returns a file path only for an URL that is
    no YouTube URL and a transfer of which yt-dlp reports neither
    progress, nor the end, nor an error: the hook raises on every
    notification whose status is [downloading], [finished] or [error],
    and the first such notification ends the download with the
    unexpected-error status. *)
Theorem flet_download_outcome (fetch : pystr -> Flet.Fetch) (url : pystr) :
  (forall p,
     (Flet.download_video_yt_dlp fetch url).2 = Some p ->
     Flet.is_youtube_url url = false /\
     (Flet.download_video_yt_dlp fetch url).1
     = [Flet.StPreparing; Flet.StCompleted] /\
     exists ds,
       fetch url = Flet.Downloads p ds None /\
       Forall (fun d => exists status,
                 d_status d = Some status /\
                 status <> VStr s_downloading /\
                 status <> VStr s_finished /\
                 status <> VStr Flet.s_error) ds) /\
  (forall p ds r d,
     Flet.is_youtube_url url = false ->
     fetch url = Flet.Downloads p ds r -> d ∈ ds ->
     get (d_status d) = VStr s_downloading \/
     get (d_status d) = VStr s_finished \/
     get (d_status d) = VStr Flet.s_error ->
     exists msg,
       Flet.download_video_yt_dlp fetch url
       = ([Flet.StPreparing; Flet.StUnexpected msg], None)).
Proof.
  unfold Flet.download_video_yt_dlp. cbn [Flet.YOUTUBE_ALLOWED negb andb].
  split.
  - intros p. destruct (Flet.is_youtube_url url); [done|].
    destruct (fetch url) as [[m|m]|p' ds r]; try done.
    destruct (Flet.first_raise ds) as [m|] eqn:Hfr; [done|].
    destruct r as [[m|m]|]; try done. cbn. intros [= ->].
    split; [done|]. split; [done|]. exists ds. split; [done|].
    apply first_raise_none in Hfr.
    eapply Forall_impl; [exact Hfr|]. intros d Hd. by apply hook_returns.
  - intros p ds r d -> -> Hin Hst.
    destruct (Flet.first_raise ds) as [m|] eqn:Hfr; [by exists m|].
    exfalso. apply first_raise_none in Hfr. rewrite Forall_forall in Hfr.
    specialize (Hfr d Hin). apply hook_returns in Hfr
      as (status & Hs & H1 & H2 & H3).
    unfold get in Hst. rewrite Hs in Hst. cbn in Hst.
    destruct Hst as [?|[?|?]]; done.
Qed.
